(** * Git Souji: branch classification and bulk cleanup

    A shallow embedding of the branch-status logic of [src/app.ts]
    (the version that lives in [unnamed/part_009]) and of the bulk
    cleanup handlers of [src/webview/panel.ts] ([openManagerPanel]).

    JavaScript strings are modelled as Rocq [string]s of ASCII characters.
    The git command runner is an external collaborator: where the code
    only consumes the text git prints, that text is an input; where the
    handlers mutate the repository, git is an interface ([GitRepo]). *)

From Stdlib Require Import String Ascii List Bool ZArith Lia.
Import ListNotations.
Open Scope string_scope.
Open Scope bool_scope.

(* ================================================================= *)
(** ** String primitives of the JavaScript runtime                   *)
(* ================================================================= *)

Module JS.

Definition char_eqb (a b : ascii) : bool := Ascii.eqb a b.

(** [String.prototype.endsWith] for a one-character suffix. *)
Fixpoint endsWith_char (s : string) (c : ascii) : bool :=
  match s with
  | EmptyString => false
  | String x EmptyString => char_eqb x c
  | String _ r => endsWith_char r c
  end.

(** [s.slice(0, -1)]: drop the last character ("" stays ""). *)
Fixpoint slice_drop_last (s : string) : string :=
  match s with
  | EmptyString => EmptyString
  | String _ EmptyString => EmptyString
  | String x r => String x (slice_drop_last r)
  end.

(** [name.startsWith(p)]. *)
Fixpoint startsWith (name p : string) : bool :=
  match p, name with
  | EmptyString, _ => true
  | String c p', String d n' => char_eqb c d && startsWith n' p'
  | String _ _, EmptyString => false
  end.

(** [s.includes(c)] for a one-character needle. *)
Fixpoint includes_char (s : string) (c : ascii) : bool :=
  match s with
  | EmptyString => false
  | String x r => char_eqb x c || includes_char r c
  end.

(** [s.split(c)] for a one-character separator; always at least one piece. *)
Fixpoint split_char (c : ascii) (s : string) : list string :=
  match s with
  | EmptyString => [EmptyString]
  | String x r =>
      if char_eqb x c then EmptyString :: split_char c r
      else match split_char c r with
           | [] => [String x EmptyString]
           | p :: ps => String x p :: ps
           end
  end.

(** [parts.join(c)]. *)
Fixpoint join_char (c : ascii) (ps : list string) : string :=
  match ps with
  | [] => EmptyString
  | [p] => p
  | p :: ps' => p ++ String c (join_char c ps')
  end.

(** Remove a literal prefix, if present. *)
Fixpoint strip_prefix (p s : string) : option string :=
  match p, s with
  | EmptyString, _ => Some s
  | String c p', String d s' => if char_eqb c d then strip_prefix p' s' else None
  | String _ _, EmptyString => None
  end.

(** JavaScript WhiteSpace and LineTerminator restricted to ASCII: TAB, LF,
    VT, FF, CR and SPACE.  This is the class of [\s] and of [trim]. *)
Definition is_space (c : ascii) : bool :=
  let n := nat_of_ascii c in (Nat.leb 9 n && Nat.leb n 13) || Nat.eqb n 32.

(** Line terminators: the characters [.] does not match (ASCII part). *)
Definition is_line_terminator (c : ascii) : bool :=
  let n := nat_of_ascii c in Nat.eqb n 10 || Nat.eqb n 13.

Fixpoint trim_start (s : string) : string :=
  match s with
  | String c r => if is_space c then trim_start r else s
  | EmptyString => EmptyString
  end.

Fixpoint rev_str (s : string) (acc : string) : string :=
  match s with
  | EmptyString => acc
  | String c r => rev_str r (String c acc)
  end.

(** [s.trim()]. *)
Definition trim (s : string) : string :=
  rev_str (trim_start (rev_str (trim_start s) EmptyString)) EmptyString.

(** [s.split(/\r?\n/)]: split at LF and drop one CR just before each LF. *)
Definition drop_trailing_cr (s : string) : string :=
  if endsWith_char s (ascii_of_nat 13) then slice_drop_last s else s.

Definition split_lines (s : string) : list string :=
  match rev (split_char (ascii_of_nat 10) s) with
  | [] => []
  | last :: before => rev (last :: map drop_trailing_cr before)
  end.

(** [.filter(Boolean)] on strings. *)
Definition nonempty (s : string) : bool :=
  match s with EmptyString => false | _ => true end.

End JS.

Import JS.

Definition star : ascii := "*"%char.
Definition slash : ascii := "/"%char.

(* ================================================================= *)
(** ** [isProtectedBranch]  (app.ts)                                  *)
(* ================================================================= *)

(** The regular expression built by the glob branch is
    ['^' + p.split('*').map(escapeRegExp).join('.*') + '$']:
    [escapeRegExp] makes every segment match itself literally, each
    ['*'] becomes [.*] (any run of characters other than line
    terminators) and the expression is anchored at both ends.  [dotstar k s]
    is the backtracking search of [.*] followed by the rest [k]. *)
Fixpoint dotstar (k : string -> bool) (s : string) : bool :=
  k s ||
  match s with
  | EmptyString => false
  | String c r => negb (is_line_terminator c) && dotstar k r
  end.

Fixpoint glob_test (segs : list string) (name : string) : bool :=
  match segs with
  | [] => false
  | [seg] => String.eqb seg name
  | seg :: rest =>
      match strip_prefix seg name with
      | Some r => dotstar (glob_test rest) r
      | None => false
      end
  end.

Fixpoint isProtectedBranch (name : string) (protectedList : list string) : bool :=
  match protectedList with
  | [] => false
  | p :: ps =>
      if endsWith_char p star then
        let prefix := slice_drop_last p in
        if startsWith name prefix then true else isProtectedBranch name ps
      else if includes_char p star then
        if glob_test (split_char star p) name then true
        else isProtectedBranch name ps
      else if String.eqb name p then true
      else isProtectedBranch name ps
  end.

(** [s.endsWith(suffix)]. *)
Definition endsWith (s suffix : string) : bool :=
  startsWith (rev_str s EmptyString) (rev_str suffix EmptyString).

(* ================================================================= *)
(** ** Data model  (app.ts: [BranchRow], [ExtensionConfig])          *)
(* ================================================================= *)

Inductive BranchKind := Local | Remote.

(** Optional TypeScript fields are [option]s; [None] is "unset". *)
Record BranchRow := mkRow {
  fullRef : string;
  short : string;
  kind : BranchKind;
  isCurrent : option bool;
  upstream : option string;
  ahead : option Z;
  behind : option Z;
  protected : option bool;
  isMerged : option bool;
  isStale : option bool;
  isGone : option bool;
  lastCommitDate : option string;
  lastCommitAgeInDays : option Z
}.

Record ExtensionConfig := mkCfg {
  baseBranch : string;
  protectedPatterns : list string;   (* [cfg.protected] *)
  confirmBeforeDelete : bool;
  forceDeleteLocal : bool;
  includeRemoteInDeadCleanup : bool;
  staleDays : Z;
  autoFetchPrune : bool;
  showStatusBadges : bool
}.

(** A JavaScript [Map] built by successive [set]s: the last [set] of a key
    wins.  It is kept as the list of its [set] calls. *)
Fixpoint map_get {V} (m : list (string * V)) (k : string) : option V :=
  match m with
  | [] => None
  | (k', v) :: m' =>
      match map_get m' k with
      | Some v' => Some v'
      | None => if String.eqb k k' then Some v else None
      end
  end.

(** [Set.has] on a set built from a list. *)
Definition set_has (s : list string) (k : string) : bool :=
  existsb (String.eqb k) s.

(* ================================================================= *)
(** ** Queries  (app.ts)                                              *)
(* ================================================================= *)

(** [getCurrentBranch]: [out] is the output of [git rev-parse --abbrev-ref
    HEAD], [None] when the command fails (the error is caught). *)
Definition getCurrentBranch (out : option string) : option string :=
  match out with
  | None => None
  | Some stdout =>
      let name := trim stdout in
      if String.eqb name "HEAD" then None else Some name
  end.

(** [n !== current] with [current : string | undefined]. *)
Definition differs_from (current : option string) (n : string) : bool :=
  match current with
  | Some c => negb (String.eqb n c)
  | None => true
  end.

(** [l.replace(/^\*\s+/, '')]. *)
Definition strip_current_marker (l : string) : string :=
  match l with
  | String c r =>
      if char_eqb c star then
        match r with
        | String d _ => if is_space d then trim_start r else l
        | EmptyString => l
        end
      else l
  | EmptyString => l
  end.

(** [n.replace(/^\(no branch\)$/, '')]. *)
Definition strip_no_branch (n : string) : string :=
  if String.eqb n "(no branch)" then EmptyString else n.

(** [detectDeadBranches(cwd, base)]: [stdout] is the output of
    [git branch --merged base], [current] the result of [getCurrentBranch]
    and [protectedList] is [cfg.protected]. *)
Definition detectDeadBranches (stdout : string) (current : option string)
    (protectedList : list string) : list string :=
  let lines := filter nonempty (map trim (split_lines stdout)) in
  let names := map strip_no_branch (map strip_current_marker lines) in
  filter (fun n => nonempty n && differs_from current n
                   && negb (isProtectedBranch n protectedList)) names.

(** Maximal prefix of characters satisfying [p], and the rest. *)
Fixpoint span (p : ascii -> bool) (s : string) : string * string :=
  match s with
  | String c r =>
      if p c then let (a, b) := span p r in (String c a, b) else (EmptyString, s)
  | EmptyString => (EmptyString, EmptyString)
  end.

Definition not_space (c : ascii) : bool := negb (is_space c).
Definition not_rbracket (c : ascii) : bool := negb (char_eqb c "]"%char).

(** The bracket body [[^\]]+:\s*gone] of the gone pattern (without the
    brackets): it ends in ["gone"], preceded by blanks, a colon and at
    least one character. *)
Definition gone_body (body : string) : bool :=
  match strip_prefix "enog" (rev_str body EmptyString) with
  | Some r =>
      match trim_start r with
      | String c rest => char_eqb c ":"%char && nonempty rest
      | EmptyString => false
      end
  | None => false
  end.

(** [line.match(/^\*?\s+(\S+)\s+\S+\s+\[[^\]]+:\s*gone\]/)], returning the
    capture group.  Each [\s+] and [\S+] is followed by a character of the
    other class, so backtracking can only succeed with maximal runs; the
    optional [*] is taken when present (without it [\s+] would fail on
    it).  [gone_rest] matches the part after [^\*?]. *)
Definition gone_rest (l1 : string) : option string :=
  let (w1, r1) := span is_space l1 in
  let (name, r2) := span not_space r1 in
  let (w2, r3) := span is_space r2 in
  let (h, r4) := span not_space r3 in
  let (w3, r5) := span is_space r4 in
  if nonempty w1 && nonempty name && nonempty w2 && nonempty h && nonempty w3 then
    match r5 with
    | String b r6 =>
        if char_eqb b "["%char then
          let (body, r7) := span not_rbracket r6 in
          match r7 with
          | String _ _ => if gone_body body then Some name else None
          | EmptyString => None
          end
        else None
    | EmptyString => None
    end
  else None.

Definition gone_match (line : string) : option string :=
  gone_rest (match line with
             | String c r => if char_eqb c star then r else line
             | EmptyString => line
             end).

(** [detectGoneBranches(cwd)]: [stdout] is the output of [git branch -vv]. *)
Definition detectGoneBranches (stdout : string) (current : option string)
    (protectedList : list string) : list string :=
  flat_map (fun line =>
              match gone_match line with
              | Some name =>
                  if differs_from current name
                     && negb (isProtectedBranch name protectedList)
                  then [name] else []
              | None => []
              end)
           (filter nonempty (split_lines stdout)).

Fixpoint all_chars (p : ascii -> bool) (s : string) : bool :=
  match s with
  | EmptyString => true
  | String c r => p c && all_chars p r
  end.

(** [listRemoteBranches(cwd)]: [stdout] is the [for-each-ref] listing of
    [refs/remotes] with format ["%(refname)\t%(refname:short)"].  A line
    without a tab leaves [short] undefined and [short.split] throws:
    [None]. *)
Fixpoint listRemoteBranches (lines : list string) (protectedList : list string)
    : option (list BranchRow) :=
  match lines with
  | [] => Some []
  | line :: rest =>
      match split_char "009"%char line with
      | fullRef :: short :: _ =>
          if endsWith fullRef "/HEAD" then listRemoteBranches rest protectedList
          else
            let name := join_char slash (tl (split_char slash short)) in
            match listRemoteBranches rest protectedList with
            | Some rows =>
                Some (mkRow fullRef short Remote None None None None
                        (Some (isProtectedBranch name protectedList))
                        None None None None None :: rows)
            | None => None
            end
      | _ =>
          if endsWith line "/HEAD" then listRemoteBranches rest protectedList
          else None
      end
  end.

Definition listRemoteBranchesOut (stdout : string) (protectedList : list string)
    : option (list BranchRow) :=
  listRemoteBranches (filter nonempty (split_lines stdout)) protectedList.

(** [detectMergedRemoteBranches(cwd, base)]: [stdout] is the output of
    [git branch -r --merged base]; the [Set] is kept as a list. *)
Definition detectMergedRemoteBranches (stdout base : string) : list string :=
  filter (fun name => nonempty name && negb (endsWith name "/HEAD")
                      && negb (String.eqb name base))
         (map trim (filter nonempty (split_lines stdout))).

(** Commit-date maps: short name -> (ISO date, age in days).  The age is
    computed from the wall clock ([Date.now()]); the map is an input. *)
Definition DatesMap := list (string * (string * Z)).

Definition with_merged (b : BranchRow) (m : bool) : BranchRow :=
  mkRow b.(fullRef) b.(short) b.(kind) b.(isCurrent) b.(upstream) b.(ahead)
    b.(behind) b.(protected) (Some m) b.(isStale) b.(isGone)
    b.(lastCommitDate) b.(lastCommitAgeInDays).

Definition with_gone (b : BranchRow) (g : bool) : BranchRow :=
  mkRow b.(fullRef) b.(short) b.(kind) b.(isCurrent) b.(upstream) b.(ahead)
    b.(behind) b.(protected) b.(isMerged) b.(isStale) (Some g)
    b.(lastCommitDate) b.(lastCommitAgeInDays).

Definition with_date (b : BranchRow) (date : string) (age : Z) (stale : bool)
    : BranchRow :=
  mkRow b.(fullRef) b.(short) b.(kind) b.(isCurrent) b.(upstream) b.(ahead)
    b.(behind) b.(protected) b.(isMerged) (Some stale) b.(isGone)
    (Some date) (Some age).

(** [const dateInfo = datesMap.get(b.short); if (dateInfo) {...}] *)
Definition apply_date (datesMap : DatesMap) (staleDays : Z) (b : BranchRow)
    : BranchRow :=
  match map_get datesMap b.(short) with
  | Some (date, ageInDays) => with_date b date ageInDays (Z.geb ageInDays staleDays)
  | None => b
  end.

(** The loop of [listLocalBranchesWithStatus], once the four queries are
    joined: [branches] from [listLocalBranches], [mergedSet] from
    [getMergedBranchSet], [datesMap] from [getBranchLastCommitDates] and
    [goneSet] from [getGoneBranchSet]. *)
Definition listLocalBranchesWithStatus (branches : list BranchRow)
    (mergedSet : list string) (datesMap : DatesMap) (goneSet : list string)
    (staleDays : Z) : list BranchRow :=
  map (fun b =>
         let b1 := with_gone (with_merged b (set_has mergedSet b.(short)))
                             (set_has goneSet b.(short)) in
         apply_date datesMap staleDays b1)
      branches.

(** The loop of [listRemoteBranchesWithStatus]. *)
Definition listRemoteBranchesWithStatus (branches : list BranchRow)
    (mergedSet : list string) (datesMap : DatesMap) (staleDays : Z)
    : list BranchRow :=
  map (fun b => apply_date datesMap staleDays
                  (with_merged b (set_has mergedSet b.(short))))
      branches.

(* ================================================================= *)
(** ** [resolveBaseBranch]  (app.ts)                                   *)
(* ================================================================= *)

(** [stdout.trim().match(/refs\/remotes\/origin\/(.+)$/)]: the leftmost
    occurrence of the literal whose remainder is non-empty and free of
    line terminators (so that [.+] reaches the end). *)
Fixpoint origin_head_match (s : string) : option string :=
  let next := match s with
              | String _ s' => origin_head_match s'
              | EmptyString => None
              end in
  match strip_prefix "refs/remotes/origin/" s with
  | Some r =>
      if nonempty r && all_chars (fun c => negb (is_line_terminator c)) r
      then Some r else next
  | None => next
  end.

(** Git's answers to the queries the resolver issues:
    [symbolicRef] is the output of [git symbolic-ref --quiet
    refs/remotes/origin/HEAD] ([None]: the command failed), [showRef c]
    tells whether [git show-ref --verify refs/heads/c] succeeds, and
    [revParse] is the output of [git rev-parse --abbrev-ref HEAD]. *)
Record GitAnswers := mkAnswers {
  symbolicRef : option string;
  showRef : string -> bool;
  revParse : option string
}.

(** [const { stdout } = await runGit(cwd, ['symbolic-ref', ...]);
    const m = stdout.trim().match(...)]; a failing command is caught. *)
Definition originHead (g : GitAnswers) : option string :=
  match g.(symbolicRef) with
  | Some stdout => origin_head_match (trim stdout)
  | None => None
  end.

(** Every git failure is caught, so the result is a plain [string]. *)
Definition resolveBaseBranch (cfg : ExtensionConfig) (g : GitAnswers) : string :=
  if nonempty cfg.(baseBranch) && negb (String.eqb cfg.(baseBranch) "auto") then
    cfg.(baseBranch)
  else
    match originHead g with
    | Some m => m
    | None =>
        match find g.(showRef) ["main"; "master"; "develop"] with
        | Some cand => cand
        | None =>
            match getCurrentBranch g.(revParse) with
            | Some cur => cur
            | None => "main"
            end
        end
    end.

(* ================================================================= *)
(** ** Bulk cleanup handlers  (panel.ts, [openManagerPanel])          *)
(* ================================================================= *)

(** The git commands the handlers run, as an interface over the state [W]
    of the repository (and its remotes).  [None] is a failing command. *)
Class GitRepo (W : Type) := {
  (** [deleteLocalBranch(cwd, name, force)]: [git branch -d|-D name] *)
  git_branch_delete : W -> string -> bool -> option W;
  (** [deleteRemoteBranch(cwd, remote, name)]: [git push remote --delete name] *)
  git_push_delete : W -> string -> string -> option W;
  (** [getUpstreamMap(cwd)]: the (short, upstream) pairs of the current
      local branches that have an upstream. *)
  git_upstreams : W -> list (string * string)
}.

(** The modal confirmations the handlers ask ([confirm(...)]). *)
Inductive Prompt :=
  | AskDeleteLocals (n : nat)     (* 'Delete {0} selected local branches?' *)
  | AskDeleteSelected (n : nat)   (* 'Delete {0} selected branches?' *)
  | AskForce (n : nat)            (* '{0} branches are not fully merged. Force delete them?' *)
  | AskUntracked (n : nat).       (* 'Also delete {0} remote branches with same name (not tracked)?' *)

(** What the handlers do, in order: the prompts shown and the destructive
    git commands issued. *)
Inductive Event :=
  | EvConfirm (p : Prompt)
  | EvDeleteLocal (name : string) (force : bool)
  | EvDeleteRemote (remote name : string).

(** A remote branch to delete: [{ remote, name, full }]. *)
Record RemoteTarget := mkTarget { t_remote : string; t_name : string; t_full : string }.

(** The result of one handler run.  [out_deleted] is the handler's
    [deletedBranches] (the names whose local delete succeeded). *)
Record Outcome (W : Type) := mkOutcome {
  out_world : W;
  out_trace : list Event;
  out_deleted : list string;
  out_failedLocal : list string;
  out_failedRemote : list string
}.
Arguments mkOutcome {W}.
Arguments out_world {W}.
Arguments out_trace {W}.
Arguments out_deleted {W}.
Arguments out_failedLocal {W}.
Arguments out_failedRemote {W}.

Section Handlers.

Context {W : Type} `{GitRepo W}.

Local Open Scope list_scope.

(** The user's answer to each prompt. *)
Variable answer : Prompt -> bool.

(** [const proceed = !cfg.confirmBeforeDelete || (await confirm(...))]:
    the prompt is shown only when the option is set. *)
Definition ask_proceed (cfg : ExtensionConfig) (p : Prompt) : bool * list Event :=
  if cfg.(confirmBeforeDelete) then (answer p, [EvConfirm p]) else (true, []).

(** [for (const name of names) { try { await deleteLocalBranch(...);
    ok.push(name) } catch { failed.push(name) } }]; returns the new
    state, the commands issued, the succeeded and the failed names. *)
Fixpoint delete_locals (force : bool) (names : list string) (w : W)
    : W * list Event * list string * list string :=
  match names with
  | [] => (w, [], [], [])
  | n :: rest =>
      match git_branch_delete w n force with
      | Some w' =>
          let '(w2, ev, ok, bad) := delete_locals force rest w' in
          (w2, EvDeleteLocal n force :: ev, n :: ok, bad)
      | None =>
          let '(w2, ev, ok, bad) := delete_locals force rest w in
          (w2, EvDeleteLocal n force :: ev, ok, n :: bad)
      end
  end.

(** [if (failedLocal.length > 0 && !cfg.forceDeleteLocal) { ... }]: the
    force-retry block; returns the state, the events, the names deleted
    by the retry and the new content of [failedLocal]. *)
Definition force_retry (cfg : ExtensionConfig) (failedLocal : list string) (w : W)
    : W * list Event * list string * list string :=
  match failedLocal with
  | [] => (w, [], [], failedLocal)
  | _ :: _ =>
      if cfg.(forceDeleteLocal) then (w, [], [], failedLocal)
      else
        let p := AskForce (length failedLocal) in
        if answer p then
          let '(w', ev, ok, stillFailed) := delete_locals true failedLocal w in
          (w', EvConfirm p :: ev, ok, stillFailed)
        else (w, [EvConfirm p], [], failedLocal)
  end.

(** The local part shared by both handlers: first pass, then retry. *)
Definition local_phase (cfg : ExtensionConfig) (names : list string) (w : W)
    : W * list Event * list string * list string :=
  let '(w1, ev1, ok1, failed1) := delete_locals cfg.(forceDeleteLocal) names w in
  let '(w2, ev2, ok2, failed2) := force_retry cfg failed1 w1 in
  (w2, ev1 ++ ev2, ok1 ++ ok2, failed2).

(** The first segment of [up.split('/')] and the rest joined again. *)
Definition split_remote (s : string) : string * string :=
  match split_char slash s with
  | r :: rest => (r, join_char slash rest)
  | [] => (EmptyString, EmptyString)
  end.

(** Separation of [deletedBranches] into tracked and untracked remotes. *)
Fixpoint classify_remotes (prot : list string) (upstreams : list (string * string))
    (deleted : list string) : list RemoteTarget * list RemoteTarget :=
  match deleted with
  | [] => ([], [])
  | name :: rest =>
      let '(tracked, untracked) := classify_remotes prot upstreams rest in
      match map_get upstreams name with
      | Some up =>
          if nonempty up && includes_char up slash then
            let (remote, rName) := split_remote up in
            if negb (isProtectedBranch rName prot)
            then (mkTarget remote rName up :: tracked, untracked)
            else (tracked, untracked)
          else if negb (isProtectedBranch name prot)
          then (tracked, mkTarget "origin" name (String.append "origin/" name) :: untracked)
          else (tracked, untracked)
      | None =>
          if negb (isProtectedBranch name prot)
          then (tracked, mkTarget "origin" name (String.append "origin/" name) :: untracked)
          else (tracked, untracked)
      end
  end.

(** [for (const { remote, name, full } of trackedRemotes) { try {...}
    catch { failedRemote.push(full) } }] *)
Fixpoint delete_tracked (ts : list RemoteTarget) (w : W)
    : W * list Event * list string :=
  match ts with
  | [] => (w, [], [])
  | t :: rest =>
      match git_push_delete w t.(t_remote) t.(t_name) with
      | Some w' =>
          let '(w2, ev, failed) := delete_tracked rest w' in
          (w2, EvDeleteRemote t.(t_remote) t.(t_name) :: ev, failed)
      | None =>
          let '(w2, ev, failed) := delete_tracked rest w in
          (w2, EvDeleteRemote t.(t_remote) t.(t_name) :: ev, t.(t_full) :: failed)
      end
  end.

(** [for (const { remote, name } of untrackedRemotes) { try {...} catch {
    /* Ignore - might not exist on remote */ } }] *)
Fixpoint delete_untracked (ts : list RemoteTarget) (w : W) : W * list Event :=
  match ts with
  | [] => (w, [])
  | t :: rest =>
      let w' := match git_push_delete w t.(t_remote) t.(t_name) with
                | Some w' => w'
                | None => w
                end in
      let '(w2, ev) := delete_untracked rest w' in
      (w2, EvDeleteRemote t.(t_remote) t.(t_name) :: ev)
  end.

(** [if (msg.includeRemote) { ... }] of [executeCleanup] (panel.ts 641-691);
    [upstreams] is the result of [getUpstreamMap]. *)
Definition remote_phase (cfg : ExtensionConfig) (upstreams : list (string * string))
    (deleted : list string) (w : W) : W * list Event * list string :=
  let '(tracked, untracked) := classify_remotes cfg.(protectedPatterns) upstreams deleted in
  let '(w1, ev1, failedRemote) := delete_tracked tracked w in
  match untracked with
  | [] => (w1, ev1, failedRemote)
  | _ :: _ =>
      let p := AskUntracked (length untracked) in
      if answer p then
        let '(w2, ev2) := delete_untracked untracked w1 in
        (w2, ev1 ++ EvConfirm p :: ev2, failedRemote)
      else (w1, ev1 ++ [EvConfirm p], failedRemote)
  end.

(** [case 'executeCleanup'] (panel.ts 590-709).  [getUpstreamMap] runs
    after the local deletions, on the repository as they left it. *)
Definition executeCleanup (cfg : ExtensionConfig) (branches : list string)
    (includeRemote : bool) (w : W) : Outcome W :=
  match branches with
  | [] => mkOutcome w [] [] [] []
  | _ :: _ =>
      let '(proceed, ev0) := ask_proceed cfg (AskDeleteLocals (length branches)) in
      if negb proceed then mkOutcome w ev0 [] [] []
      else
        let '(w2, ev12, deletedBranches, failedLocal) := local_phase cfg branches w in
        if includeRemote then
          let '(w3, ev3, failedRemote) :=
            remote_phase cfg (git_upstreams w2) deletedBranches w2 in
          mkOutcome w3 (ev0 ++ ev12 ++ ev3) deletedBranches failedLocal failedRemote
        else mkOutcome w2 (ev0 ++ ev12) deletedBranches failedLocal []
  end.

(** The remote loop of [deleteSelectedBranches]. *)
Fixpoint delete_selected_remotes (prot : list string) (fullNames : list string) (w : W)
    : W * list Event * list string :=
  match fullNames with
  | [] => (w, [], [])
  | fullName :: rest =>
      let (remote, name) := split_remote fullName in
      if isProtectedBranch name prot then
        let '(w2, ev, failed) := delete_selected_remotes prot rest w in
        (w2, ev, fullName :: failed)
      else
        match git_push_delete w remote name with
        | Some w' =>
            let '(w2, ev, failed) := delete_selected_remotes prot rest w' in
            (w2, EvDeleteRemote remote name :: ev, failed)
        | None =>
            let '(w2, ev, failed) := delete_selected_remotes prot rest w in
            (w2, EvDeleteRemote remote name :: ev, fullName :: failed)
        end
  end.

(** [case 'deleteSelectedBranches'] (panel.ts 755-835). *)
Definition deleteSelectedBranches (cfg : ExtensionConfig)
    (localBranches remoteBranches : list string) (w : W) : Outcome W :=
  let total := length localBranches + length remoteBranches in
  match total with
  | O => mkOutcome w [] [] [] []
  | S _ =>
      let '(proceed, ev0) := ask_proceed cfg (AskDeleteSelected total) in
      if negb proceed then mkOutcome w ev0 [] [] []
      else
        let '(w2, ev12, deleted, failedLocal) := local_phase cfg localBranches w in
        let '(w3, ev3, failedRemote) :=
          delete_selected_remotes cfg.(protectedPatterns) remoteBranches w2 in
        mkOutcome w3 (ev0 ++ ev12 ++ ev3) deleted failedLocal failedRemote
  end.

End Handlers.

(** A concrete repository, following git's behaviour for the commands
    above: [branch -d] refuses the checked-out branch and unmerged
    branches, [branch -D] only the checked-out one, and [push --delete]
    fails when the remote branch does not exist. *)
Module Repo.

Record LocalBranch := mkLocal { lb_name : string; lb_upstream : option string; lb_merged : bool }.

Record t := mkRepo {
  locals : list LocalBranch;
  remotes : list (string * string);   (* (remote, branch) *)
  head : option string
}.

Definition pair_eqb (a b : string * string) : bool :=
  String.eqb (fst a) (fst b) && String.eqb (snd a) (snd b).

Definition branch_delete (r : t) (n : string) (force : bool) : option t :=
  match find (fun b => String.eqb b.(lb_name) n) r.(locals) with
  | None => None
  | Some b =>
      if differs_from r.(head) n && (force || b.(lb_merged)) then
        Some (mkRepo (filter (fun b => negb (String.eqb b.(lb_name) n)) r.(locals))
                     r.(remotes) r.(head))
      else None
  end.

Definition push_delete (r : t) (remote name : string) : option t :=
  if existsb (pair_eqb (remote, name)) r.(remotes) then
    Some (mkRepo r.(locals) (filter (fun x => negb (pair_eqb (remote, name) x)) r.(remotes))
                 r.(head))
  else None.

Definition upstreams (r : t) : list (string * string) :=
  flat_map (fun b => match b.(lb_upstream) with
                     | Some u => if nonempty u then [(b.(lb_name), u)] else []
                     | None => []
                     end) r.(locals).

#[global] Instance git : GitRepo t := {|
  git_branch_delete := branch_delete;
  git_push_delete := push_delete;
  git_upstreams := upstreams
|}.

End Repo.

(** Concrete configurations and repositories used by the examples. *)
Module Demo.

(** [getCfg()] with the given protected list, force and confirm options. *)
Definition cfg (prot : list string) (force confirm : bool) : ExtensionConfig :=
  mkCfg "auto" prot confirm force false 30 false true.

Definition default_protected : list string := ["main"; "master"; "develop"].

(** A for-each-ref line ["<refname>\t<short>"]. *)
Definition ref_line (full sh : string) : string := full ++ String "009"%char sh.

Definition nl : string := String "010"%char EmptyString.

(** All prompts answered "Yes". *)
Definition yes : Prompt -> bool := fun _ => true.

End Demo.

(** Observations on a handler trace: the names given to a forced
    [git branch -D], and the events of the remote part of a handler. *)
Definition forced_deletes (tr : list Event) : list string :=
  flat_map (fun e => match e with
                     | EvDeleteLocal n true => [n]
                     | _ => []
                     end) tr.

Definition remote_event (e : Event) : bool :=
  match e with
  | EvDeleteRemote _ _ => true
  | EvConfirm (AskUntracked _) => true
  | _ => false
  end.

(** The deleted names the remote cascade treats as untracked: no
    upstream containing ['/'] in the upstream map, and not protected. *)
Definition has_remote_upstream (ups : list (string * string)) (n : string) : bool :=
  match map_get ups n with
  | Some up => nonempty up && includes_char up slash
  | None => false
  end.

Definition untracked_names (prot : list string) (ups : list (string * string))
    (deleted : list string) : list string :=
  filter (fun n => negb (has_remote_upstream ups n) && negb (isProtectedBranch n prot))
         deleted.

(** The shape of a line the gone pattern accepts, in the pattern's own
    terms: optional [*], blanks, the name, blanks, a token, blanks, then
    ['['], a non-empty text without [']'], [':'], optional blanks and
    ["gone]"]; anything may follow. *)
Definition gone_shape (line name : string) : Prop :=
  exists m w1 w2 h w3 a w4 rest,
    (m = "" \/ m = "*") /\
    line = m ++ w1 ++ name ++ w2 ++ h ++ w3 ++ "[" ++ a ++ ":" ++ w4 ++ "gone]" ++ rest /\
    nonempty w1 = true /\ all_chars is_space w1 = true /\
    nonempty name = true /\ all_chars not_space name = true /\
    nonempty w2 = true /\ all_chars is_space w2 = true /\
    nonempty h = true /\ all_chars not_space h = true /\
    nonempty w3 = true /\ all_chars is_space w3 = true /\
    nonempty a = true /\ all_chars not_rbracket a = true /\
    all_chars is_space w4 = true.

(** [b] does not start with a character satisfying [p]. *)
Definition stops (p : ascii -> bool) (b : string) : bool :=
  match b with String c _ => negb (p c) | EmptyString => true end.

(* ================================================================= *)
(** ** Pure helpers  (app.ts: [escapeHtml], [parseTrackShort],
       [simpleBranchNameValidator])                                  *)
(* ================================================================= *)

(** [s.replace(/c/g, r)] for a one-character pattern. *)
Fixpoint replace_char (c : ascii) (r s : string) : string :=
  match s with
  | EmptyString => EmptyString
  | String x t =>
      if char_eqb x c then r ++ replace_char c r t else String x (replace_char c r t)
  end.

Definition dquote : ascii := "034"%char.
Definition squote : ascii := "039"%char.

Definition AMP : string := "&amp;".
Definition LT : string := "&lt;".
Definition GT : string := "&gt;".
Definition QUOT : string := "&quot;".
Definition APOS : string := "&#39;".

(** [escapeHtml(s)] for a string argument, where [String(s)] is [s]. *)
Definition escapeHtml (s : string) : string :=
  replace_char squote APOS
    (replace_char dquote QUOT
      (replace_char ">"%char GT
        (replace_char "<"%char LT
          (replace_char "&"%char AMP s)))).

(** The five passes read as one table, character by character. *)
Definition html_entity (c : ascii) : string :=
  if char_eqb c "&"%char then AMP
  else if char_eqb c "<"%char then LT
  else if char_eqb c ">"%char then GT
  else if char_eqb c dquote then QUOT
  else if char_eqb c squote then APOS
  else String c EmptyString.

Fixpoint html_escape_table (s : string) : string :=
  match s with
  | EmptyString => EmptyString
  | String c r => html_entity c ++ html_escape_table r
  end.

(** The characters HTML gives a meaning to in text and attributes. *)
Definition html_special (c : ascii) : bool :=
  char_eqb c "<"%char || char_eqb c ">"%char || char_eqb c dquote || char_eqb c squote.

(** A decoder of the five entities, used to state that no information is
    lost ([fuel] bounds the number of steps). *)
Fixpoint html_unescape_aux (fuel : nat) (s : string) : string :=
  match fuel with
  | O => s
  | S f =>
      match s with
      | EmptyString => EmptyString
      | String c r =>
          if char_eqb c "&"%char then
            match strip_prefix "amp;" r with
            | Some r' => String "&"%char (html_unescape_aux f r')
            | None =>
            match strip_prefix "lt;" r with
            | Some r' => String "<"%char (html_unescape_aux f r')
            | None =>
            match strip_prefix "gt;" r with
            | Some r' => String ">"%char (html_unescape_aux f r')
            | None =>
            match strip_prefix "quot;" r with
            | Some r' => String dquote (html_unescape_aux f r')
            | None =>
            match strip_prefix "#39;" r with
            | Some r' => String squote (html_unescape_aux f r')
            | None => String c (html_unescape_aux f r)
            end end end end end
          else String c (html_unescape_aux f r)
      end
  end.

Definition html_unescape (s : string) : string := html_unescape_aux (String.length s) s.

(** [\d]. *)
Definition is_digit (c : ascii) : bool :=
  let n := nat_of_ascii c in Nat.leb 48 n && Nat.leb n 57.

(** [Number(d)] for a non-empty string of decimal digits.  The double
    it builds is exact below 2^53; this is the value in that range. *)
Fixpoint digits_value (acc : Z) (d : string) : Z :=
  match d with
  | EmptyString => acc
  | String c r => digits_value (acc * 10 + Z.of_nat (nat_of_ascii c - 48)) r
  end.

Definition Number_digits (d : string) : Z := digits_value 0 d.

(** [t.match(/\+(\d+)/)] (resp. [-]): the leftmost sign followed by a
    digit, and the longest run of digits after it (the capture). *)
Fixpoint match_signed (sign : ascii) (t : string) : option string :=
  match t with
  | EmptyString => None
  | String c r =>
      if char_eqb c sign then
        let (d, _) := span is_digit r in
        if nonempty d then Some d else match_signed sign r
      else match_signed sign r
  end.

(** [AheadBehind]. *)
Record AheadBehind := mkAB { ab_ahead : option Z; ab_behind : option Z }.

(** [parseTrackShort(track)]; [None] is [undefined]. *)
Definition parseTrackShort (track : option string) : AheadBehind :=
  match track with
  | None => mkAB None None
  | Some tr =>
      if negb (nonempty tr) then mkAB None None
      else
        let t := trim tr in
        if negb (nonempty t) || String.eqb t "<>" then mkAB None None
        else mkAB (option_map Number_digits (match_signed "+"%char t))
                  (option_map Number_digits (match_signed "-"%char t))
  end.

(** The five messages of [simpleBranchNameValidator]. *)
Inductive NameError := EmptyName | HasWhitespace | InvalidChars | BadEnding | BadSequence.

Definition any_char (p : ascii -> bool) (s : string) : bool :=
  negb (all_chars (fun c => negb (p c)) s).

(** The class [[~^:\\?*\[\]]]. *)
Definition is_invalid_name_char (c : ascii) : bool :=
  existsb (char_eqb c) ["~"; "^"; ":"; "\"; "?"; "*"; "["; "]"]%char.

(** [s.includes(sub)]. *)
Fixpoint includes (s sub : string) : bool :=
  startsWith s sub || match s with EmptyString => false | String _ r => includes r sub end.

(** [simpleBranchNameValidator(input)]: [None] is "valid" ([undefined]). *)
Definition simpleBranchNameValidator (input : option string) : option NameError :=
  match input with
  | None => Some EmptyName
  | Some s =>
      if negb (nonempty s) then Some EmptyName
      else if any_char is_space s then Some HasWhitespace
      else if any_char is_invalid_name_char s then Some InvalidChars
      else if endsWith_char s "."%char || endsWith_char s "/"%char then Some BadEnding
      else if includes s ".." || includes s "//" then Some BadSequence
      else None
  end.

(* ================================================================= *)
(** ** [checkoutBranch]  (app.ts)                                      *)
(* ================================================================= *)

(** [run args] is the outcome of [runGit(cwd, args)]: [true] when git
    exits with success, [false] when it throws. *)
Definition checkoutBranch (run : list string -> bool) (name : string)
    : list (list string) * bool :=
  let probe_local := ["show-ref"; "--verify"; "refs/heads/" ++ name] in
  let co := ["checkout"; name] in
  let probe_remote := ["show-ref"; "--verify"; "refs/remotes/" ++ name] in
  let localName := join_char slash (tl (split_char slash name)) in
  let track := ["checkout"; "-b"; localName; "--track"; name] in
  let '(done1, cmds1) :=
    if run probe_local then
      if run co then (true, [probe_local; co]) else (false, [probe_local; co])
    else (false, [probe_local]) in
  if done1 then (cmds1, true)
  else
    let '(done2, cmds2) :=
      if run probe_remote then
        if run track then (true, [probe_remote; track]) else (false, [probe_remote; track])
      else (false, [probe_remote]) in
    if done2 then (app cmds1 cmds2, true)
    else (app cmds1 (app cmds2 [co]), run co).

(* ================================================================= *)
(** ** Single-branch handlers of the panel  (panel.ts)               *)
(* ================================================================= *)

(** The confirmations of the handlers below. *)
Inductive Question :=
  | QDeleteLocal (name : string)
  | QMerge (source : string)
  | QDeleteRemote (remote name : string)
  | QDeleteRemotes (n : nat).

(** The warnings and informations they show. *)
Inductive Notice :=
  | WarnProtectedRename
  | WarnProtectedDelete
  | InfoSelfMerge
  | WarnProtectedMergeSource
  | WarnProtectedRemoteDelete
  | WarnFailedRemotes (failed : list string).

(** What a handler does, in order: ask for a branch name, ask a
    question, show a notice, run git, show the error caught by the
    message loop, refresh the panel; [SEv] carries the events of the
    shared remote loop. *)
Inductive Step :=
  | SAskName
  | SAsk (q : Question)
  | SNotice (n : Notice)
  | SGit (args : list string)
  | SEv (e : Event)
  | SError
  | SRefresh.

Section Panel.

Local Open Scope list_scope.

Variable run : list string -> bool.
Variable confirm : Question -> bool.

(** [await runGit(...); await refresh()]: a failing command throws to the
    [catch] of the message loop, which shows the error. *)
Definition git_then_refresh (args : list string) : list Step :=
  if run args then [SGit args; SRefresh] else [SGit args; SError].

(** [!cfg.confirmBeforeDelete || (await confirm(...))]. *)
Definition gate (cfg : ExtensionConfig) (q : Question) : bool * list Step :=
  if cfg.(confirmBeforeDelete) then (confirm q, [SAsk q]) else (true, []).

(** [case 'deleteLocal']. *)
Definition onDeleteLocal (cfg : ExtensionConfig) (name : string) : list Step :=
  if isProtectedBranch name cfg.(protectedPatterns) then [SNotice WarnProtectedDelete]
  else
    let '(proceed, asked) := gate cfg (QDeleteLocal name) in
    if proceed then
      asked ++ git_then_refresh ["branch"; if cfg.(forceDeleteLocal) then "-D" else "-d"; name]
    else asked.

(** [case 'rename']: [newName] is the value of the input box ([None] when
    it is dismissed). *)
Definition onRename (cfg : ExtensionConfig) (oldName : string) (newName : option string)
    : list Step :=
  SAskName ::
  match newName with
  | None => []
  | Some nn =>
      if negb (nonempty nn) || String.eqb nn oldName then []
      else if isProtectedBranch oldName cfg.(protectedPatterns)
      then [SNotice WarnProtectedRename]
      else git_then_refresh ["branch"; "-m"; oldName; nn]
  end.

(** [case 'mergeIntoCurrent']: [current] is the result of
    [getCurrentBranch]. *)
Definition onMergeIntoCurrent (cfg : ExtensionConfig) (current : option string)
    (source : string) : list Step :=
  let self := match current with
              | Some c => nonempty c && String.eqb source c
              | None => false
              end in
  if self then [SNotice InfoSelfMerge]
  else if isProtectedBranch source cfg.(protectedPatterns)
  then [SNotice WarnProtectedMergeSource]
  else if confirm (QMerge source)
  then SAsk (QMerge source) :: git_then_refresh ["merge"; source]
  else [SAsk (QMerge source)].

(** [case 'deleteRemote']. *)
Definition onDeleteRemote (cfg : ExtensionConfig) (remote name : string) : list Step :=
  if isProtectedBranch name cfg.(protectedPatterns) then [SNotice WarnProtectedRemoteDelete]
  else if confirm (QDeleteRemote remote name)
  then SAsk (QDeleteRemote remote name) :: git_then_refresh ["push"; remote; "--delete"; name]
  else [SAsk (QDeleteRemote remote name)].

End Panel.

Section RemoteCleanup.

Context {W : Type} `{GitRepo W}.

Local Open Scope list_scope.

Variable confirm : Question -> bool.

(** [case 'executeRemoteCleanup']: its loop is the one of
    [deleteSelectedBranches] ([delete_selected_remotes]).  Returns the
    repository, the steps and [failed]. *)
Definition executeRemoteCleanup (cfg : ExtensionConfig) (branches : list string) (w : W)
    : W * list Step * list string :=
  match branches with
  | [] => (w, [], [])
  | _ :: _ =>
      let '(proceed, asked) := gate confirm cfg (QDeleteRemotes (length branches)) in
      if negb proceed then (w, asked, [])
      else
        let '(w', ev, failed) := delete_selected_remotes cfg.(protectedPatterns) branches w in
        let warn := match failed with
                    | [] => []
                    | _ :: _ => [SNotice (WarnFailedRemotes failed)]
                    end in
        (w', asked ++ map SEv ev ++ warn ++ [SRefresh], failed)
  end.

End RemoteCleanup.

(* ================================================================= *)
(** ** Commit dates and stale branches  (app.ts)                      *)
(* ================================================================= *)

(** [Map.prototype.set] on a map kept as its entries in insertion order:
    a key already present keeps its place and takes the new value. *)
Fixpoint js_map_set {V} (m : list (string * V)) (k : string) (v : V) : list (string * V) :=
  match m with
  | [] => [(k, v)]
  | (k', v') :: m' => if String.eqb k k' then (k, v) :: m' else (k', v') :: js_map_set m' k v
  end.

Section CommitDates.

(** [Math.floor((now - new Date(dateStr).getTime()) / (1000*60*60*24))]
    with the [now] of the call; [None] stands for NaN (invalid date). *)
Variable ageInDays_of : string -> option Z.

(** One line of the loop of [getBranchLastCommitDates]:
    [const [name, dateStr] = line.split('\t'); if (name && dateStr) ...]. *)
Definition record_date (m : list (string * (string * option Z))) (line : string)
    : list (string * (string * option Z)) :=
  match split_char "009"%char line with
  | name :: dateStr :: _ =>
      if nonempty name && nonempty dateStr
      then js_map_set m name (dateStr, ageInDays_of dateStr) else m
  | _ => m
  end.

Definition getBranchLastCommitDates (stdout : string) : list (string * (string * option Z)) :=
  fold_left record_date (filter nonempty (split_lines stdout)) [].

(** The loop of [getRemoteBranchLastCommitDates], which also skips
    [/HEAD] names. *)
Definition record_remote_date (m : list (string * (string * option Z))) (line : string)
    : list (string * (string * option Z)) :=
  match split_char "009"%char line with
  | name :: dateStr :: _ =>
      if nonempty name && nonempty dateStr && negb (endsWith name "/HEAD")
      then js_map_set m name (dateStr, ageInDays_of dateStr) else m
  | _ => m
  end.

Definition getRemoteBranchLastCommitDates (stdout : string)
    : list (string * (string * option Z)) :=
  fold_left record_remote_date (filter nonempty (split_lines stdout)) [].

(** [ageInDays >= staleDays], false for NaN. *)
Definition age_at_least (age : option Z) (staleDays : Z) : bool :=
  match age with Some a => Z.geb a staleDays | None => false end.

(** [detectStaleBranches(cwd, staleDays)]: [stdout] is the listing read by
    [getBranchLastCommitDates]; the loop runs over the map's entries. *)
Definition detectStaleBranches (stdout : string) (current : option string)
    (protectedList : list string) (staleDays : Z) : list string :=
  map fst (filter (fun e => age_at_least (snd (snd e)) staleDays
                            && differs_from current (fst e)
                            && negb (isProtectedBranch (fst e) protectedList))
                  (getBranchLastCommitDates stdout)).

(** The [set] calls the loop of [getBranchLastCommitDates] makes for one
    line, in order (none or one); [date_sets] lists those of the whole
    output, so that [map_get (date_sets stdout)] reads the map. *)
Definition date_line (line : string) : list (string * (string * option Z)) :=
  match split_char "009"%char line with
  | name :: dateStr :: _ =>
      if nonempty name && nonempty dateStr
      then [(name, (dateStr, ageInDays_of dateStr))] else []
  | _ => []
  end.

Definition date_sets (stdout : string) : list (string * (string * option Z)) :=
  flat_map date_line (filter nonempty (split_lines stdout)).

End CommitDates.

(** The state of the date loops: a map without duplicate keys whose
    entries are what [map_get] reads from the [set] calls so far. *)
Definition dates_inv (m S : list (string * (string * option Z))) : Prop :=
  NoDup (map fst m) /\ forall x u, In (x, u) m <-> map_get S x = Some u.

(** The state of the loop of [getRemoteBranchLastCommitDates]. *)
Definition remote_keys_ok (m : list (string * (string * option Z))) : Prop :=
  NoDup (map fst m) /\
  forall k u, In (k, u) m -> nonempty k = true /\ endsWith k "/HEAD" = false.

(* ================================================================= *)
(** ** [pickRepository]  (app.ts)                                      *)
(* ================================================================= *)

Record Folder := mkFolder { f_name : string; f_path : string }.

(** An item of the quick pick: [{ label, description, repoRoot }]. *)
Record PickItem := mkPick { p_label : string; p_description : string; p_root : string }.

(** [isGit path] is [isGitRepository(path)]; [choose items] is what
    [showQuickPick] resolves to.  Returns the chosen root and whether the
    quick pick was shown. *)
Definition pickRepository (folders : list Folder) (isGit : string -> bool)
    (choose : list PickItem -> option PickItem) : option string * bool :=
  match folders with
  | [] => (None, false)
  | [f] => if isGit f.(f_path) then (Some f.(f_path), false) else (None, false)
  | _ :: _ :: _ =>
      let okPicks := filter (fun f => isGit f.(f_path)) folders in
      match okPicks with
      | [] => (None, false)
      | _ :: _ =>
          match choose (map (fun f => mkPick f.(f_name) f.(f_path) f.(f_path)) okPicks) with
          | Some p => (Some p.(p_root), true)
          | None => (None, true)
          end
      end
  end.


(* ================================================================= *)
(** ** Properties                                                    *)
(* ================================================================= *)

(** The unit tests of the repository ([extension.test.ts]). *)
Example isProtected_tests :
  isProtectedBranch "main" ["main"] = true /\
  isProtectedBranch "dev" ["main"] = false /\
  isProtectedBranch "release/1.0" ["release/*"] = true /\
  isProtectedBranch "feature/x" ["release/*"] = false /\
  isProtectedBranch "hotfix/a/wip" ["hotfix/*/wip"] = true /\
  isProtectedBranch "hotfix/a/done" ["hotfix/*/wip"] = false /\
  isProtectedBranch "Main" ["main"] = false /\
  isProtectedBranch "featureXtest" ["feature.test"] = false.
Proof. vm_compute. repeat split. Qed.

Lemma startsWith_empty (n : string) : startsWith n "" = true.
Proof. destruct n; reflexivity. Qed.

(** ** Protected-branch matcher *)

(** C2 (counterexample): with the list [["release/*"]], the bare name
    ["release"] is not protected, since it does not start with the prefix
    ["release/"] left after the trailing ['*'] is stripped. *)
Lemma release_bare_name_not_protected :
  isProtectedBranch "release" ["release/*"] = false.
Proof. vm_compute. reflexivity. Qed.

(** C2 (amended): with the list [["release/*"]], a name is protected exactly
    when it starts with ["release/"]: ["release/1.0"] is protected and the
    bare ["release"] is not. *)
Theorem release_prefix_semantics :
  isProtectedBranch "release/1.0" ["release/*"] = true /\
  isProtectedBranch "release" ["release/*"] = false /\
  (forall n, isProtectedBranch n ["release/*"] = startsWith n "release/").
Proof.
  split; [vm_compute; reflexivity|].
  split; [vm_compute; reflexivity|].
  intro n. cbn [isProtectedBranch].
  change (endsWith_char "release/*" star) with true.
  change (slice_drop_last "release/*") with "release/".
  cbv zeta. destruct (startsWith n "release/"); reflexivity.
Qed.

(** C10: a pattern whose text before its final ['*'] is empty (that is the
    pattern ["*"]) protects every name, the empty one included, wherever it
    stands in the list. *)
Theorem empty_prefix_pattern_protects_all :
  forall (n p : string) (ps : list string),
    endsWith_char p star = true -> slice_drop_last p = "" -> In p ps ->
    isProtectedBranch n ps = true.
Proof.
  intros n p ps Hend Hslice Hin.
  induction ps as [|q ps IH]; [destruct Hin|].
  destruct Hin as [<- | Hin].
  - cbn [isProtectedBranch]. rewrite Hend, Hslice, startsWith_empty. reflexivity.
  - cbn [isProtectedBranch].
    destruct (endsWith_char q star); [destruct (startsWith n _)|
      destruct (includes_char q star); [destruct (glob_test _ _)|
        destruct (String.eqb n q)]]; auto.
Qed.

Lemma empty_prefix_pattern_protects_all_witness :
  endsWith_char "*" star = true /\ slice_drop_last "*" = "" /\
  In "*" ["main"; "hotfix/*/wip"; "*"] /\
  isProtectedBranch "" ["main"; "hotfix/*/wip"; "*"] = true.
Proof.
  split; [reflexivity|]. split; [reflexivity|]. split; [simpl; auto|].
  apply (empty_prefix_pattern_protects_all "" "*" ["main"; "hotfix/*/wip"; "*"]);
    [reflexivity | reflexivity | simpl; auto].
Defined.

(** ** Merged-branch detection *)

(** C6: on the merged-query output of scenario C, with current branch
    ["feature/done"] and protected list [["main"; "develop"]], the result is
    exactly [["bugfix-123"]]; in general every returned name is non-empty,
    differs from the current branch and matches no protected pattern. *)
Theorem detectDeadBranches_exclusions :
  detectDeadBranches ("  main" ++ Demo.nl ++ "* feature/done" ++ Demo.nl ++
                      "  bugfix-123" ++ Demo.nl ++ "  develop" ++ Demo.nl)
                     (Some "feature/done") ["main"; "develop"] = ["bugfix-123"] /\
  (forall stdout current prot n,
     In n (detectDeadBranches stdout current prot) ->
     nonempty n = true /\ differs_from current n = true /\
     isProtectedBranch n prot = false).
Proof.
  split; [vm_compute; reflexivity|].
  intros stdout current prot n Hin. unfold detectDeadBranches in Hin.
  apply filter_In in Hin as [_ Hf].
  destruct (nonempty n), (differs_from current n), (isProtectedBranch n prot);
    try discriminate; auto.
Qed.

Lemma detectDeadBranches_exclusions_witness :
  In "x" (detectDeadBranches ("* main" ++ Demo.nl ++ "  x") (Some "main") ["develop"]) /\
  nonempty "x" = true /\ differs_from (Some "main") "x" = true /\
  isProtectedBranch "x" ["develop"] = false.
Proof.
  assert (Hin : In "x" (detectDeadBranches ("* main" ++ Demo.nl ++ "  x") (Some "main") ["develop"]))
    by (vm_compute; auto).
  split; [exact Hin|].
  exact (proj2 detectDeadBranches_exclusions _ _ _ _ Hin).
Defined.

(** ** Staleness *)

(** C8: in [listLocalBranchesWithStatus], a branch whose age equals
    [staleDays] is stale, one a day younger is not, any age [a] gives
    [isStale = (a >= staleDays)], and a branch missing from the date map
    keeps its [isStale] untouched (unset, as [listLocalBranches] leaves it). *)
Theorem local_status_stale_boundary :
  forall branches mergedSet datesMap goneSet staleDays i b,
    nth_error branches i = Some b ->
    exists b',
      nth_error (listLocalBranchesWithStatus branches mergedSet datesMap goneSet
                   staleDays) i = Some b' /\
      short b' = short b /\
      (forall d a, map_get datesMap (short b) = Some (d, a) ->
                   isStale b' = Some (Z.geb a staleDays)) /\
      (forall d, map_get datesMap (short b) = Some (d, staleDays) ->
                 isStale b' = Some true) /\
      (forall d, map_get datesMap (short b) = Some (d, staleDays - 1)%Z ->
                 isStale b' = Some false) /\
      (map_get datesMap (short b) = None -> isStale b = None -> isStale b' = None).
Proof.
  intros branches mergedSet datesMap goneSet staleDays i b Hb.
  unfold listLocalBranchesWithStatus. rewrite nth_error_map, Hb. cbn.
  eexists. split; [reflexivity|].
  unfold apply_date. cbn [short with_gone with_merged].
  split; [destruct (map_get datesMap (short b)) as [[d a]|]; reflexivity|].
  split; [intros d a E; rewrite E; reflexivity|].
  split; [intros d E; rewrite E; cbn; rewrite Z.geb_leb, Z.leb_refl; reflexivity|].
  split; [intros d E; rewrite E; cbn; rewrite Z.geb_leb; f_equal; apply Z.leb_gt; lia|].
  intros E Hs; rewrite E; exact Hs.
Qed.

(** ** Base-branch resolution *)

Lemma nonempty_true (s : string) : nonempty s = true <-> s <> "".
Proof. destruct s; simpl; split; congruence. Qed.

(** C9 (counterexample): an empty configured [baseBranch] is not the
    sentinel ["auto"], yet it is not returned verbatim: the resolver goes
    on to [origin/HEAD]. *)
Lemma resolveBaseBranch_empty_config :
  let cfg := mkCfg "" Demo.default_protected true false false 30 false true in
  let g := mkAnswers (Some ("refs/remotes/origin/develop" ++ Demo.nl))
                     (fun _ => false) None in
  baseBranch cfg <> "auto" /\ resolveBaseBranch cfg g = "develop" /\
  resolveBaseBranch cfg g <> baseBranch cfg.
Proof.
  cbv zeta. split; [discriminate|]. split; [vm_compute; reflexivity|].
  vm_compute. discriminate.
Qed.

(** C9 (amended): [resolveBaseBranch] returns a string on every path (git
    failures are caught).  A configured base branch that is neither empty
    nor ["auto"] is returned verbatim; otherwise the branch named by
    [origin/HEAD], else the first of main, master, develop that exists
    locally, else the current branch, else ["main"].  A symbolic ref
    [refs/remotes/origin/<b>] names [<b>]. *)
Theorem resolveBaseBranch_order :
  forall (cfg : ExtensionConfig) (g : GitAnswers),
    let r := resolveBaseBranch cfg g in
    (baseBranch cfg <> "" -> baseBranch cfg <> "auto" -> r = baseBranch cfg) /\
    (baseBranch cfg = "" \/ baseBranch cfg = "auto" ->
       (forall m, originHead g = Some m -> r = m) /\
       (originHead g = None ->
          forall c, find (showRef g) ["main"; "master"; "develop"] = Some c -> r = c) /\
       (originHead g = None -> find (showRef g) ["main"; "master"; "develop"] = None ->
          forall cur, getCurrentBranch (revParse g) = Some cur -> r = cur) /\
       (originHead g = None -> find (showRef g) ["main"; "master"; "develop"] = None ->
          getCurrentBranch (revParse g) = None -> r = "main")) /\
    (forall b, nonempty b = true ->
       all_chars (fun c => negb (is_line_terminator c)) b = true ->
       origin_head_match ("refs/remotes/origin/" ++ b) = Some b).
Proof.
  intros cfg g r. unfold r, resolveBaseBranch. split; [|split].
  - intros H1 H2. apply nonempty_true in H1. rewrite H1.
    apply String.eqb_neq in H2. rewrite H2. reflexivity.
  - intros Hb.
    assert (E : nonempty (baseBranch cfg) && negb (String.eqb (baseBranch cfg) "auto")
                = false)
      by (destruct Hb as [-> | ->]; reflexivity).
    rewrite E.
    split; [intros m -> ; reflexivity|].
    split; [intros -> c -> ; reflexivity|].
    split; [intros -> -> cur -> ; reflexivity|].
    intros -> -> -> ; reflexivity.
  - intros b H1 H2. simpl. rewrite H1, H2. reflexivity.
Qed.

Lemma resolveBaseBranch_order_witness :
  let cfg := Demo.cfg Demo.default_protected false true in
  let g := mkAnswers None (fun c => String.eqb c "master") None in
  originHead g = None /\
  find (showRef g) ["main"; "master"; "develop"] = Some "master" /\
  resolveBaseBranch cfg g = "master".
Proof.
  cbv zeta. split; [reflexivity|]. split; [reflexivity|].
  destruct (resolveBaseBranch_order (Demo.cfg Demo.default_protected false true)
              (mkAnswers None (fun c => String.eqb c "master") None))
    as [_ [H _]].
  apply (proj1 (proj2 (H (or_intror eq_refl))) eq_refl); reflexivity.
Defined.

(** ** Remote merged set *)

(** C4 (code bug): with base resolved from [origin/HEAD] to ["main"], the
    merged-set filter compares ["origin/main"] with ["main"] and keeps it,
    so the base branch's own remote record is flagged [isMerged = true]. *)
Theorem remote_base_ref_flagged_merged :
  let cfg := Demo.cfg Demo.default_protected false true in
  let g := mkAnswers (Some ("refs/remotes/origin/main" ++ Demo.nl)) (fun _ => true)
                     (Some ("main" ++ Demo.nl)) in
  let base := resolveBaseBranch cfg g in
  base = "main" /\
  exists rows,
    listRemoteBranchesOut
      (Demo.ref_line "refs/remotes/origin/HEAD" "origin/HEAD" ++ Demo.nl ++
       Demo.ref_line "refs/remotes/origin/main" "origin/main" ++ Demo.nl ++
       Demo.ref_line "refs/remotes/origin/feature" "origin/feature" ++ Demo.nl)
      (protectedPatterns cfg) = Some rows /\
    map (fun b => (short b, isMerged b))
      (listRemoteBranchesWithStatus rows
         (detectMergedRemoteBranches
            ("  origin/HEAD -> origin/main" ++ Demo.nl ++ "  origin/main" ++ Demo.nl ++
             "  origin/feature" ++ Demo.nl) base)
         [] (staleDays cfg))
    = [("origin/main", Some true); ("origin/feature", Some true)].
Proof.
  cbv zeta. split; [vm_compute; reflexivity|].
  eexists. split; [vm_compute; reflexivity|]. vm_compute. reflexivity.
Qed.

(** ** Bulk cleanup *)

(** C1 (code bug): neither bulk handler checks [isProtectedBranch] on the
    local names it receives: with protected list [["main"]], both
    [executeCleanup] and [deleteSelectedBranches] on [["main"]] issue
    [git branch -d main], and the branch is gone. *)
Theorem bulk_cleanup_deletes_protected :
  let cfg := Demo.cfg ["main"] false true in
  let repo := Repo.mkRepo [Repo.mkLocal "main" None true; Repo.mkLocal "dev" None true]
                          [] (Some "dev") in
  isProtectedBranch "main" (protectedPatterns cfg) = true /\
  out_trace (executeCleanup Demo.yes cfg ["main"] false repo)
    = [EvConfirm (AskDeleteLocals 1); EvDeleteLocal "main" false] /\
  out_deleted (executeCleanup Demo.yes cfg ["main"] false repo) = ["main"] /\
  out_trace (deleteSelectedBranches Demo.yes cfg ["main"] [] repo)
    = [EvConfirm (AskDeleteSelected 1); EvDeleteLocal "main" false] /\
  map Repo.lb_name (Repo.locals (out_world (deleteSelectedBranches Demo.yes cfg ["main"] [] repo)))
    = ["dev"].
Proof. cbv zeta. repeat split; vm_compute; reflexivity. Qed.

(** *** Loop lemmas *)

Section LoopLemmas.

Context {W : Type} `{GitRepo W}.

Local Open Scope list_scope.

Lemma delete_locals_spec (f : bool) (names : list string) (w w' : W) ev ok bad :
  delete_locals f names w = (w', ev, ok, bad) ->
  ev = map (fun n => EvDeleteLocal n f) names /\
  (forall n, count_occ string_dec ok n + count_occ string_dec bad n
             = count_occ string_dec names n).
Proof.
  revert w w' ev ok bad.
  induction names as [|x names IH]; intros w w' ev ok bad E; simpl in E.
  - inversion E; subst. split; [reflexivity|]. reflexivity.
  - destruct (git_branch_delete w x f) as [w1|].
    + destruct (delete_locals f names w1) as [[[w2 ev2] ok2] bad2] eqn:E2.
      inversion E; subst. destruct (IH _ _ _ _ _ E2) as [-> Hc].
      split; [reflexivity|]. intro n. simpl.
      destruct (string_dec x n); specialize (Hc n); lia.
    + destruct (delete_locals f names w) as [[[w2 ev2] ok2] bad2] eqn:E2.
      inversion E; subst. destruct (IH _ _ _ _ _ E2) as [-> Hc].
      split; [reflexivity|]. intro n. simpl.
      destruct (string_dec x n); specialize (Hc n); lia.
Qed.

Lemma forced_deletes_app (a b : list Event) :
  forced_deletes (a ++ b) = forced_deletes a ++ forced_deletes b.
Proof. unfold forced_deletes. apply flat_map_app. Qed.

Lemma forced_deletes_locals (f : bool) (names : list string) :
  forced_deletes (map (fun n => EvDeleteLocal n f) names) = if f then names else [].
Proof.
  induction names as [|x names IH]; [destruct f; reflexivity|].
  simpl. change (flat_map _ (map _ names)) with
    (forced_deletes (map (fun n => EvDeleteLocal n f) names)).
  rewrite IH. destruct f; reflexivity.
Qed.

Lemma remote_events_no_local (ev : list Event) :
  forallb remote_event ev = true ->
  forced_deletes ev = [] /\ (forall k, ~ In (EvConfirm (AskForce k)) ev).
Proof.
  induction ev as [|e ev IH]; simpl; [split; auto|].
  intro Hb. apply andb_prop in Hb as [He Hev]. destruct (IH Hev) as [IH1 IH2].
  destruct e as [p|n f|r n]; simpl in He.
  - destruct p; try discriminate. split; [exact IH1|].
    intros k [Hk|Hk]; [discriminate|exact (IH2 k Hk)].
  - discriminate.
  - split; [exact IH1|]. intros k [Hk|Hk]; [discriminate|exact (IH2 k Hk)].
Qed.

Lemma delete_tracked_events (ts : list RemoteTarget) (w w' : W) ev fr :
  delete_tracked ts w = (w', ev, fr) -> forallb remote_event ev = true.
Proof.
  revert w w' ev fr. induction ts as [|t ts IH]; intros w w' ev fr E; simpl in E.
  - inversion E; reflexivity.
  - destruct (git_push_delete w (t_remote t) (t_name t)) as [w1|];
      [destruct (delete_tracked ts w1) as [[w2 ev2] f2] eqn:E2
      |destruct (delete_tracked ts w) as [[w2 ev2] f2] eqn:E2];
      inversion E; subst; simpl; exact (IH _ _ _ _ E2).
Qed.

Lemma delete_untracked_events (ts : list RemoteTarget) (w w' : W) ev :
  delete_untracked ts w = (w', ev) -> forallb remote_event ev = true.
Proof.
  revert w w' ev. induction ts as [|t ts IH]; intros w w' ev E; simpl in E.
  - inversion E; reflexivity.
  - destruct (delete_untracked ts _) as [w2 ev2] eqn:E2.
    inversion E; subst; simpl. exact (IH _ _ _ E2).
Qed.

Lemma remote_phase_events (answer : Prompt -> bool) cfg ups deleted (w w' : W) ev fr :
  remote_phase answer cfg ups deleted w = (w', ev, fr) -> forallb remote_event ev = true.
Proof.
  unfold remote_phase.
  destruct (classify_remotes _ ups deleted) as [tracked untracked].
  destruct (delete_tracked tracked w) as [[w1 ev1] f1] eqn:E1.
  pose proof (delete_tracked_events _ _ _ _ _ E1) as H1.
  destruct untracked as [|u us]; intro E.
  - inversion E; subst; exact H1.
  - destruct (answer _).
    + destruct (delete_untracked (u :: us) w1) as [w2 ev2] eqn:E2. inversion E; subst.
      rewrite forallb_app, H1. simpl. exact (delete_untracked_events _ _ _ _ E2).
    + inversion E; subst. rewrite forallb_app, H1. reflexivity.
Qed.

Lemma delete_selected_remotes_events prot fulls (w w' : W) ev fr :
  delete_selected_remotes prot fulls w = (w', ev, fr) -> forallb remote_event ev = true.
Proof.
  revert w w' ev fr. induction fulls as [|x fulls IH]; intros w w' ev fr E; simpl in E.
  - inversion E; reflexivity.
  - destruct (split_remote x) as [r n].
    destruct (isProtectedBranch n prot).
    + destruct (delete_selected_remotes prot fulls w) as [[w2 ev2] f2] eqn:E2.
      inversion E; subst. exact (IH _ _ _ _ E2).
    + destruct (git_push_delete w r n) as [w1|];
        [destruct (delete_selected_remotes prot fulls w1) as [[w2 ev2] f2] eqn:E2
        |destruct (delete_selected_remotes prot fulls w) as [[w2 ev2] f2] eqn:E2];
        inversion E; subst; simpl; exact (IH _ _ _ _ E2).
Qed.

End LoopLemmas.

Section ForceRetry.

Context {W : Type} `{GitRepo W}.

Local Open Scope list_scope.

Variable answer : Prompt -> bool.

(** The force prompt is granted: some first-pass failures, and "Yes". *)
Definition retry_granted (bad1 : list string) : bool :=
  match bad1 with
  | [] => false
  | _ :: _ => answer (AskForce (length bad1))
  end.

Lemma local_phase_spec (cfg : ExtensionConfig) (names : list string) (w w1 w2 : W)
    ev1 ok1 bad1 ev12 ok failed :
  forceDeleteLocal cfg = false ->
  delete_locals false names w = (w1, ev1, ok1, bad1) ->
  local_phase answer cfg names w = (w2, ev12, ok, failed) ->
  (In (EvConfirm (AskForce (length bad1))) ev12 <-> bad1 <> []) /\
  (forall k, In (EvConfirm (AskForce k)) ev12 -> k = length bad1) /\
  forced_deletes ev12 = (if retry_granted bad1 then bad1 else []) /\
  failed = (if retry_granted bad1 then snd (delete_locals true bad1 w1) else bad1).
Proof.
  intros Hf E1 E. unfold local_phase in E. rewrite Hf, E1 in E.
  destruct (delete_locals_spec _ _ _ _ _ _ _ E1) as [Hev1 _]. subst ev1.
  assert (NoAsk : forall k f l, ~ In (EvConfirm (AskForce k))
                                   (map (fun n => EvDeleteLocal n f) l))
    by (intros k f l Hin; apply in_map_iff in Hin as [? [? _]]; discriminate).
  unfold force_retry, retry_granted in *. destruct bad1 as [|b bs].
  - inversion E; subst. rewrite app_nil_r, forced_deletes_locals.
    split; [split; [intro X; exact (False_ind _ (NoAsk _ _ _ X)) | congruence]|].
    split; [intros k X; exact (False_ind _ (NoAsk _ _ _ X))|].
    split; reflexivity.
  - rewrite Hf in E. destruct (answer (AskForce (length (b :: bs)))) eqn:Ea.
    + destruct (delete_locals true (b :: bs) w1) as [[[w' ev'] ok'] bad'] eqn:E2.
      inversion E; subst.
      destruct (delete_locals_spec _ _ _ _ _ _ _ E2) as [-> _].
      split; [split; [discriminate | intros _; apply in_or_app; right; left; reflexivity]|].
      split.
      { intros k X. apply in_app_iff in X as [X|[X|X]].
        - exact (False_ind _ (NoAsk _ _ _ X)).
        - inversion X; reflexivity.
        - exact (False_ind _ (NoAsk _ _ _ X)). }
      split; [|reflexivity].
      rewrite forced_deletes_app, forced_deletes_locals. simpl.
      change (flat_map _ (map _ bs)) with
        (forced_deletes (map (fun n => EvDeleteLocal n true) bs)).
      rewrite forced_deletes_locals. reflexivity.
    + inversion E; subst.
      split; [split; [discriminate | intros _; apply in_or_app; right; left; reflexivity]|].
      split.
      { intros k X. apply in_app_iff in X as [X|[X|X]].
        - exact (False_ind _ (NoAsk _ _ _ X)).
        - inversion X; reflexivity.
        - destruct X. }
      split; [|reflexivity].
      rewrite forced_deletes_app, forced_deletes_locals. reflexivity.
Qed.

Lemma ask_proceed_events cfg p proceed ev0 :
  (forall k, p <> AskForce k) ->
  ask_proceed answer cfg p = (proceed, ev0) ->
  forced_deletes ev0 = [] /\ (forall k, ~ In (EvConfirm (AskForce k)) ev0).
Proof.
  intros Hp E. unfold ask_proceed in E.
  destruct (confirmBeforeDelete cfg); inversion E; subst; simpl.
  - split; [reflexivity|]. intros k [X|X]; [inversion X; subst; exact (Hp k eq_refl)|exact X].
  - split; [reflexivity|]. intros k X; exact X.
Qed.

(** A local phase wrapped between a prefix and a suffix that issue no
    forced delete and no force prompt. *)
Lemma wrapped_local_phase (ev0 ev12 ev3 : list Event) (bad1 : list string) x :
  forced_deletes ev0 = [] -> (forall k, ~ In (EvConfirm (AskForce k)) ev0) ->
  forced_deletes ev3 = [] -> (forall k, ~ In (EvConfirm (AskForce k)) ev3) ->
  (In (EvConfirm (AskForce (length bad1))) ev12 <-> bad1 <> []) ->
  forced_deletes ev12 = x ->
  (In (EvConfirm (AskForce (length bad1))) (ev0 ++ ev12 ++ ev3) <-> bad1 <> []) /\
  forced_deletes (ev0 ++ ev12 ++ ev3) = x.
Proof.
  intros F0 N0 F3 N3 Hin Hf. split.
  - rewrite !in_app_iff. split.
    + intros [X|[X|X]]; [destruct (N0 _ X)|apply Hin, X|destruct (N3 _ X)].
    + intro Hb. right; left. apply Hin, Hb.
  - rewrite !forced_deletes_app, F0, F3, Hf, app_nil_r. reflexivity.
Qed.

Lemma deleted_and_retried (names ok1 bad1 : list string) (w w1 : W) ev1 n :
  delete_locals false names w = (w1, ev1, ok1, bad1) ->
  In n ok1 -> In n bad1 -> 2 <= count_occ string_dec names n.
Proof.
  intros E H1 H2. destruct (delete_locals_spec _ _ _ _ _ _ _ E) as [_ Hc].
  specialize (Hc n). apply (count_occ_In string_dec) in H1, H2. lia.
Qed.

End ForceRetry.

Ltac finish_retry E1 Hfail G1 G2 :=
  split; [exact G1|]; split; [exact G2|]; split; [exact Hfail|];
  let n := fresh "n" in let Hn := fresh "Hn" in let Hn' := fresh "Hn'" in
  intros n Hn Hn'; rewrite G2 in Hn';
  apply (deleted_and_retried _ _ _ _ _ _ _ E1 Hn);
  match type of Hn' with
  | In _ (if ?b then _ else _) => destruct b; [exact Hn' | destruct Hn']
  end.

(** C5 (counterexample): the input list may name a branch twice; the
    second safe delete of ["a"] then fails (the branch is gone), and the
    retry force-deletes ["a"] again, although it was deleted by the first
    pass, and reports it as failed. *)
Lemma force_retry_reattempts_deleted :
  let cfg := Demo.cfg [] false false in
  let repo := Repo.mkRepo [Repo.mkLocal "a" None true] [] (Some "dev") in
  let o := executeCleanup Demo.yes cfg ["a"; "a"] false repo in
  out_trace o = [EvDeleteLocal "a" false; EvDeleteLocal "a" false;
                 EvConfirm (AskForce 1); EvDeleteLocal "a" true] /\
  out_deleted o = ["a"] /\ out_failedLocal o = ["a"].
Proof. cbv zeta. repeat split; vm_compute; reflexivity. Qed.

(** C5 (amended): in both bulk handlers, when the first (safe) pass leaves
    failures [bad1] and [forceDeleteLocal] is off, one prompt scoped to the
    [length bad1] failures is asked; if granted, the forced deletes issued
    are exactly [bad1] (in order) and the names whose forced delete fails
    again are the reported local failures; if declined, [bad1] is
    reported.  A name deleted by the first pass is force-deleted again only
    when it occurs at least twice in the input list. *)
Theorem bulk_force_retry_failed_subset :
  forall (W : Type) (H : GitRepo W) (answer : Prompt -> bool) (cfg : ExtensionConfig),
    forceDeleteLocal cfg = false ->
    (forall (branches : list string) (includeRemote : bool) (w w1 : W) ev1 ok1 bad1,
       branches <> [] ->
       fst (ask_proceed answer cfg (AskDeleteLocals (length branches))) = true ->
       delete_locals false branches w = (w1, ev1, ok1, bad1) ->
       let o := executeCleanup answer cfg branches includeRemote w in
       (In (EvConfirm (AskForce (length bad1))) (out_trace o) <-> bad1 <> []) /\
       forced_deletes (out_trace o) = (if retry_granted answer bad1 then bad1 else []) /\
       out_failedLocal o =
         (if retry_granted answer bad1 then snd (delete_locals true bad1 w1) else bad1) /\
       (forall n, In n ok1 -> In n (forced_deletes (out_trace o)) ->
                  2 <= count_occ string_dec branches n)) /\
    (forall (localBranches remoteBranches : list string) (w w1 : W) ev1 ok1 bad1,
       length localBranches + length remoteBranches <> 0 ->
       fst (ask_proceed answer cfg
              (AskDeleteSelected (length localBranches + length remoteBranches))) = true ->
       delete_locals false localBranches w = (w1, ev1, ok1, bad1) ->
       let o := deleteSelectedBranches answer cfg localBranches remoteBranches w in
       (In (EvConfirm (AskForce (length bad1))) (out_trace o) <-> bad1 <> []) /\
       forced_deletes (out_trace o) = (if retry_granted answer bad1 then bad1 else []) /\
       out_failedLocal o =
         (if retry_granted answer bad1 then snd (delete_locals true bad1 w1) else bad1) /\
       (forall n, In n ok1 -> In n (forced_deletes (out_trace o)) ->
                  2 <= count_occ string_dec localBranches n)).
Proof.
  intros W H answer cfg Hf. split.
  - intros branches includeRemote w w1 ev1 ok1 bad1 Hne Hp E1. cbv zeta.
    unfold executeCleanup. destruct branches as [|b0 bs]; [congruence|].
    destruct (ask_proceed answer cfg (AskDeleteLocals (length (b0 :: bs))))
      as [proceed ev0] eqn:Ea.
    simpl in Hp. subst proceed.
    destruct (ask_proceed_events answer cfg (AskDeleteLocals (length (b0 :: bs))) true ev0
               ltac:(intros k; discriminate) Ea) as [F0 N0].
    destruct (local_phase answer cfg (b0 :: bs) w) as [[[w2 ev12] ok] failed] eqn:El.
    destruct (local_phase_spec answer cfg _ _ _ _ _ _ _ _ _ _ Hf E1 El)
      as [HIn [_ [Hfd Hfail]]].
    cbn iota beta. destruct includeRemote.
    + destruct (remote_phase answer cfg (git_upstreams w2) ok w2) as [[w3 ev3] fr] eqn:Er.
      destruct (remote_events_no_local _ (remote_phase_events _ _ _ _ _ _ _ _ Er))
        as [F3 N3].
      cbn [negb]; cbn iota beta; cbn [out_trace out_failedLocal].
      destruct (wrapped_local_phase ev0 ev12 ev3 bad1 _ F0 N0 F3 N3 HIn Hfd) as [G1 G2].
      finish_retry E1 Hfail G1 G2.
    + cbn [negb]; cbn iota beta; cbn [out_trace out_failedLocal].
      rewrite <- (app_nil_r ev12).
      destruct (wrapped_local_phase ev0 ev12 [] bad1 _ F0 N0 eq_refl
                  (fun k (X : In _ []) => X) HIn Hfd) as [G1 G2].
      rewrite app_nil_r in *. finish_retry E1 Hfail G1 G2.
  - intros locs rems w w1 ev1 ok1 bad1 Hne Hp E1. cbv zeta.
    unfold deleteSelectedBranches.
    destruct (length locs + length rems) as [|t] eqn:Et; [congruence|].
    destruct (ask_proceed answer cfg (AskDeleteSelected (S t)))
      as [proceed ev0] eqn:Ea.
    simpl in Hp. subst proceed.
    destruct (ask_proceed_events answer cfg (AskDeleteSelected (S t)) true ev0
               ltac:(intros k; discriminate) Ea) as [F0 N0].
    destruct (local_phase answer cfg locs w) as [[[w2 ev12] ok] failed] eqn:El.
    destruct (local_phase_spec answer cfg _ _ _ _ _ _ _ _ _ _ Hf E1 El)
      as [HIn [_ [Hfd Hfail]]].
    cbn iota beta.
    destruct (delete_selected_remotes (protectedPatterns cfg) rems w2) as [[w3 ev3] fr] eqn:Er.
    destruct (remote_events_no_local _ (delete_selected_remotes_events _ _ _ _ _ _ Er))
      as [F3 N3].
    cbn [negb]; cbn iota beta; cbn [out_trace out_failedLocal].
    destruct (wrapped_local_phase ev0 ev12 ev3 bad1 _ F0 N0 F3 N3 HIn Hfd) as [G1 G2].
    finish_retry E1 Hfail G1 G2.
Qed.

(** Scenario D: ["a"] is unmerged, ["b"] merged; the retry force-deletes
    exactly ["a"] and nothing is reported as failed. *)
Lemma bulk_force_retry_failed_subset_witness :
  let cfg := Demo.cfg [] false false in
  let repo := Repo.mkRepo [Repo.mkLocal "a" None false; Repo.mkLocal "b" None true]
                          [] (Some "dev") in
  forced_deletes (out_trace (executeCleanup Demo.yes cfg ["a"; "b"] false repo)) = ["a"] /\
  out_failedLocal (executeCleanup Demo.yes cfg ["a"; "b"] false repo) = [].
Proof.
  cbv zeta.
  destruct (bulk_force_retry_failed_subset Repo.t Repo.git Demo.yes
              (Demo.cfg [] false false) eq_refl) as [Hx _].
  destruct (Hx ["a"; "b"] false
              (Repo.mkRepo [Repo.mkLocal "a" None false; Repo.mkLocal "b" None true]
                           [] (Some "dev"))
              _ _ _ _ ltac:(discriminate) eq_refl eq_refl) as [_ [G2 [G3 _]]].
  split; [rewrite G2 | rewrite G3]; vm_compute; reflexivity.
Defined.

(** Staleness on a concrete row: 30 days old with [staleDays = 30]. *)
Lemma local_status_stale_boundary_witness :
  let b := mkRow "refs/heads/old" "old" Local None None None None (Some false)
                 None None None None None in
  nth_error [b] 0 = Some b /\
  exists b', nth_error (listLocalBranchesWithStatus [b] [] [("old", ("2026-09-18", 30%Z))]
                          [] 30) 0 = Some b' /\ isStale b' = Some true.
Proof.
  cbv zeta. split; [reflexivity|].
  destruct (local_status_stale_boundary
              [mkRow "refs/heads/old" "old" Local None None None None (Some false)
                     None None None None None]
              [] [("old", ("2026-09-18", 30%Z))] [] 30 0 _ eq_refl)
    as [b' [Hn [_ [_ [H30 _]]]]].
  exists b'. split; [exact Hn|]. apply (H30 "2026-09-18"). reflexivity.
Defined.

(** *** Remote cascade of [executeCleanup] *)

Section Cascade.

Context {W : Type} `{GitRepo W}.

Local Open Scope list_scope.

Lemma classify_untracked (prot : list string) ups deleted :
  snd (classify_remotes prot ups deleted)
  = map (fun n => mkTarget "origin" n (String.append "origin/" n))
        (untracked_names prot ups deleted).
Proof.
  induction deleted as [|n deleted IH]; [reflexivity|].
  unfold untracked_names in *. cbn [classify_remotes filter].
  destruct (classify_remotes prot ups deleted) as [tracked untracked].
  cbn [snd] in IH. unfold has_remote_upstream.
  destruct (map_get ups n) as [up|].
  - destruct (nonempty up && includes_char up slash).
    + destruct (split_remote up) as [r rn].
      destruct (negb (isProtectedBranch rn prot)); exact IH.
    + destruct (isProtectedBranch n prot); cbn; rewrite IH; reflexivity.
  - destruct (isProtectedBranch n prot); cbn; rewrite IH; reflexivity.
Qed.

Lemma delete_tracked_trace (ts : list RemoteTarget) (w w' : W) ev fr :
  delete_tracked ts w = (w', ev, fr) ->
  ev = map (fun t => EvDeleteRemote (t_remote t) (t_name t)) ts.
Proof.
  revert w w' ev fr. induction ts as [|t ts IH]; intros w w' ev fr E; simpl in E.
  - inversion E; reflexivity.
  - destruct (git_push_delete w (t_remote t) (t_name t)) as [w1|];
      [destruct (delete_tracked ts w1) as [[w2 ev2] f2] eqn:E2
      |destruct (delete_tracked ts w) as [[w2 ev2] f2] eqn:E2];
      inversion E; subst; simpl; rewrite (IH _ _ _ _ E2); reflexivity.
Qed.

(** Every untracked target is attempted, whatever the earlier attempts
    returned. *)
Lemma delete_untracked_trace (ts : list RemoteTarget) (w w' : W) ev :
  delete_untracked ts w = (w', ev) ->
  ev = map (fun t => EvDeleteRemote (t_remote t) (t_name t)) ts.
Proof.
  revert w w' ev. induction ts as [|t ts IH]; intros w w' ev E; simpl in E.
  - inversion E; reflexivity.
  - destruct (delete_untracked ts _) as [w2 ev2] eqn:E2.
    inversion E; subst; simpl. rewrite (IH _ _ _ E2). reflexivity.
Qed.

End Cascade.

(** C3 (code bug): the untracked branch of the remote cascade of
    [executeCleanup] carries the comment that it checks whether
    origin/<name> exists, but no check is made.  First scenario: the merged
    local branch "x" has no upstream and the repository has no remote
    branch at all, yet the untracked-deletion confirmation is asked and a
    push delete of origin/x is attempted.  Second scenario: the upstream map
    is read after the local deletions, so the deleted branch "y", which
    tracks fork/y, has no upstream any more: it is put in the untracked
    batch, the confirmation is asked for it, origin/y (which does not exist)
    is targeted, and fork/y is left in place. *)
Lemma untracked_prompt_without_remote_branch :
  let repo := Repo.mkRepo [Repo.mkLocal "x" None true] [] (Some "dev") in
  let repo2 := Repo.mkRepo [Repo.mkLocal "y" (Some "fork/y") true] [("fork", "y")]
                           (Some "dev") in
  Repo.remotes repo = [] /\
  out_trace (executeCleanup Demo.yes (Demo.cfg [] false false) ["x"] true repo)
  = [EvDeleteLocal "x" false; EvConfirm (AskUntracked 1); EvDeleteRemote "origin" "x"] /\
  out_failedRemote (executeCleanup Demo.yes (Demo.cfg [] false false) ["x"] true repo) = [] /\
  Repo.upstreams repo2 = [("y", "fork/y")] /\
  out_trace (executeCleanup Demo.yes (Demo.cfg [] false false) ["y"] true repo2)
  = [EvDeleteLocal "y" false; EvConfirm (AskUntracked 1); EvDeleteRemote "origin" "y"] /\
  Repo.remotes (out_world (executeCleanup Demo.yes (Demo.cfg [] false false) ["y"] true repo2))
  = [("fork", "y")] /\
  out_failedRemote (executeCleanup Demo.yes (Demo.cfg [] false false) ["y"] true repo2) = [].
Proof. vm_compute. repeat split. Qed.

(** *** The gone pattern *)

Module GoneFacts.

Lemma sapp_assoc (x y z : string) : (x ++ y) ++ z = x ++ (y ++ z).
Proof. induction x as [|c x IH]; simpl; [reflexivity|rewrite IH; reflexivity]. Qed.

Lemma sapp_nil (x : string) : x ++ "" = x.
Proof. induction x as [|c x IH]; simpl; [reflexivity|rewrite IH; reflexivity]. Qed.

Lemma char_eqb_true (a b : ascii) : char_eqb a b = true -> a = b.
Proof. unfold char_eqb. apply Ascii.eqb_eq. Qed.

Lemma span_spec (p : ascii -> bool) (s a b : string) :
  span p s = (a, b) -> s = a ++ b /\ all_chars p a = true /\ stops p b = true.
Proof.
  revert a b. induction s as [|c s IH]; intros a b E; simpl in E.
  - inversion E; subst. repeat split.
  - destruct (p c) eqn:Hc.
    + destruct (span p s) as [a' b'] eqn:E'. inversion E; subst.
      destruct (IH _ _ eq_refl) as [-> [Ha Hb]]. simpl. rewrite Hc, Ha. repeat split; exact Hb.
    + inversion E; subst. simpl. rewrite Hc. repeat split.
Qed.

Lemma span_exact (p : ascii -> bool) (a b : string) :
  all_chars p a = true -> stops p b = true -> span p (a ++ b) = (a, b).
Proof.
  induction a as [|c a IH]; intros Ha Hb; simpl.
  - destruct b as [|d b]; [reflexivity|]. simpl in *.
    destruct (p d); [discriminate|reflexivity].
  - simpl in Ha. apply andb_prop in Ha as [Hc Ha]. rewrite Hc, (IH Ha Hb). reflexivity.
Qed.

Lemma all_chars_app (p : ascii -> bool) (x y : string) :
  all_chars p (x ++ y) = all_chars p x && all_chars p y.
Proof. induction x as [|c x IH]; simpl; [reflexivity|rewrite IH, andb_assoc; reflexivity]. Qed.

Lemma all_chars_impl (p q : ascii -> bool) (x : string) :
  (forall c, p c = true -> q c = true) -> all_chars p x = true -> all_chars q x = true.
Proof.
  intros Hpq. induction x as [|c x IH]; simpl; [reflexivity|].
  intro H. apply andb_prop in H as [Hc Hx]. rewrite (Hpq c Hc), (IH Hx). reflexivity.
Qed.

Lemma stops_app (p q : ascii -> bool) (x y : string) :
  (forall c, q c = true -> p c = false) ->
  nonempty x = true -> all_chars q x = true -> stops p (x ++ y) = true.
Proof.
  intros Hqp Hne Hx. destruct x as [|c x]; [discriminate|]. simpl in *.
  apply andb_prop in Hx as [Hc _]. rewrite (Hqp c Hc). reflexivity.
Qed.

Lemma space_not_space (c : ascii) : is_space c = true -> not_space c = false.
Proof. unfold not_space. intros ->. reflexivity. Qed.

Lemma not_space_space (c : ascii) : not_space c = true -> is_space c = false.
Proof. unfold not_space. destruct (is_space c); [discriminate|reflexivity]. Qed.

Lemma space_not_rbracket (c : ascii) : is_space c = true -> not_rbracket c = true.
Proof.
  intro Hs. unfold not_rbracket. destruct (char_eqb c "]"%char) eqn:E; [|reflexivity].
  apply char_eqb_true in E. subst c. discriminate Hs.
Qed.

Lemma space_not_star (c : ascii) : is_space c = true -> char_eqb c star = false.
Proof.
  intro Hs. destruct (char_eqb c star) eqn:E; [|reflexivity].
  apply char_eqb_true in E. subst c. discriminate Hs.
Qed.

Lemma rev_str_acc (s acc : string) : rev_str s acc = rev_str s "" ++ acc.
Proof.
  revert acc. induction s as [|c s IH]; intro acc; simpl; [reflexivity|].
  rewrite IH, (IH (String c "")), sapp_assoc. reflexivity.
Qed.

Lemma rev_str_app (x y : string) : rev_str (x ++ y) "" = rev_str y "" ++ rev_str x "".
Proof.
  induction x as [|c x IH]; simpl.
  - rewrite sapp_nil. reflexivity.
  - rewrite (rev_str_acc (x ++ y)), (rev_str_acc x), IH, sapp_assoc. reflexivity.
Qed.

Lemma rev_str_involutive (s : string) : rev_str (rev_str s "") "" = s.
Proof.
  induction s as [|c s IH]; simpl; [reflexivity|].
  rewrite (rev_str_acc s), rev_str_app, IH. reflexivity.
Qed.

Lemma all_chars_rev (p : ascii -> bool) (s : string) :
  all_chars p (rev_str s "") = all_chars p s.
Proof.
  induction s as [|c s IH]; simpl; [reflexivity|].
  rewrite rev_str_acc, all_chars_app, IH. simpl. rewrite andb_true_r, andb_comm. reflexivity.
Qed.

Lemma nonempty_rev (s : string) : nonempty (rev_str s "") = nonempty s.
Proof.
  destruct s as [|c s]; [reflexivity|]. simpl. rewrite rev_str_acc.
  destruct (rev_str s ""); reflexivity.
Qed.

Lemma strip_prefix_spec (p s r : string) : strip_prefix p s = Some r -> s = p ++ r.
Proof.
  revert s. induction p as [|c p IH]; intros s E; simpl in E.
  - inversion E. reflexivity.
  - destruct s as [|d s]; [discriminate|].
    destruct (char_eqb c d) eqn:Ec; [|discriminate].
    apply char_eqb_true in Ec. subst d. simpl. rewrite (IH _ E). reflexivity.
Qed.

Lemma strip_prefix_app (p r : string) : strip_prefix p (p ++ r) = Some r.
Proof.
  induction p as [|c p IH]; simpl; [reflexivity|].
  unfold char_eqb. rewrite Ascii.eqb_refl. exact IH.
Qed.

Lemma trim_start_spec (s : string) :
  exists ws, s = ws ++ trim_start s /\ all_chars is_space ws = true.
Proof.
  induction s as [|c s IH]; simpl.
  - exists "". split; reflexivity.
  - destruct (is_space c) eqn:Hc.
    + destruct IH as [ws [Hs Hws]]. exists (String c ws). simpl.
      rewrite <- Hs, Hc, Hws. split; reflexivity.
    + exists "". split; reflexivity.
Qed.

Lemma trim_start_app (ws t : string) :
  all_chars is_space ws = true -> stops is_space t = true -> trim_start (ws ++ t) = t.
Proof.
  induction ws as [|c ws IH]; intros Hws Ht; simpl.
  - destruct t as [|d t]; [reflexivity|]. simpl in *.
    destruct (is_space d); [discriminate|reflexivity].
  - simpl in Hws. apply andb_prop in Hws as [Hc Hws]. rewrite Hc. exact (IH Hws Ht).
Qed.

Lemma gone_body_iff (body : string) :
  gone_body body = true <->
  exists a w4, body = a ++ ":" ++ w4 ++ "gone" /\ nonempty a = true /\
               all_chars is_space w4 = true.
Proof.
  unfold gone_body. split.
  - destruct (strip_prefix "enog" (rev_str body "")) as [r|] eqn:E1; [|discriminate].
    apply strip_prefix_spec in E1.
    destruct (trim_start_spec r) as [ws [Hr Hws]].
    destruct (trim_start r) as [|c rest]; [discriminate|].
    intro H. apply andb_prop in H as [Hc Hne]. apply char_eqb_true in Hc. subst c.
    exists (rev_str rest ""), (rev_str ws ""). split; [|split].
    + rewrite <- (rev_str_involutive body), E1, Hr.
      change ("enog" ++ ws ++ String ":" rest) with ("enog" ++ (ws ++ (":" ++ rest))).
      rewrite !rev_str_app. rewrite !sapp_assoc. reflexivity.
    + rewrite nonempty_rev. exact Hne.
    + rewrite all_chars_rev. exact Hws.
  - intros [a [w4 [-> [Ha Hw4]]]].
    rewrite !rev_str_app, !sapp_assoc. simpl (rev_str "gone" "").
    rewrite strip_prefix_app.
    rewrite trim_start_app; [| rewrite all_chars_rev; exact Hw4 | reflexivity].
    simpl (rev_str ":" ""). simpl. rewrite nonempty_rev. exact Ha.
Qed.

End GoneFacts.

Import GoneFacts.

Lemma gone_rest_sound (l1 name : string) :
  gone_rest l1 = Some name ->
  exists w1 w2 h w3 a w4 rest,
    l1 = w1 ++ name ++ w2 ++ h ++ w3 ++ "[" ++ a ++ ":" ++ w4 ++ "gone]" ++ rest /\
    nonempty w1 = true /\ all_chars is_space w1 = true /\
    nonempty name = true /\ all_chars not_space name = true /\
    nonempty w2 = true /\ all_chars is_space w2 = true /\
    nonempty h = true /\ all_chars not_space h = true /\
    nonempty w3 = true /\ all_chars is_space w3 = true /\
    nonempty a = true /\ all_chars not_rbracket a = true /\
    all_chars is_space w4 = true.
Proof.
  unfold gone_rest.
  destruct (span is_space l1) as [w1 r1] eqn:E1.
  destruct (span not_space r1) as [nm r2] eqn:E2.
  destruct (span is_space r2) as [w2 r3] eqn:E3.
  destruct (span not_space r3) as [h r4] eqn:E4.
  destruct (span is_space r4) as [w3 r5] eqn:E5.
  destruct (nonempty w1 && nonempty nm && nonempty w2 && nonempty h && nonempty w3)
    eqn:Hne; [|discriminate].
  destruct r5 as [|b r6]; [discriminate|].
  destruct (char_eqb b "["%char) eqn:Eb; [|discriminate].
  destruct (span not_rbracket r6) as [body r7] eqn:E6.
  destruct r7 as [|x r8]; [discriminate|].
  destruct (gone_body body) eqn:Eg; [|discriminate].
  intro Hs. inversion Hs. subst nm.
  apply char_eqb_true in Eb. subst b.
  destruct (span_spec _ _ _ _ E1) as [-> [Hw1 _]].
  destruct (span_spec _ _ _ _ E2) as [-> [Hn _]].
  destruct (span_spec _ _ _ _ E3) as [-> [Hw2 _]].
  destruct (span_spec _ _ _ _ E4) as [-> [Hh _]].
  destruct (span_spec _ _ _ _ E5) as [-> [Hw3 _]].
  destruct (span_spec _ _ _ _ E6) as [-> [Hbody Hx]].
  simpl in Hx. unfold not_rbracket in Hx. rewrite negb_involutive in Hx.
  apply char_eqb_true in Hx. subst x.
  apply gone_body_iff in Eg as [a [w4 [-> [Ha Hw4]]]].
  rewrite !all_chars_app in Hbody. apply andb_prop in Hbody as [Hna _].
  repeat (apply andb_prop in Hne as [Hne ?]).
  exists w1, w2, h, w3, a, w4, r8.
  repeat split; try assumption.
  rewrite !sapp_assoc. reflexivity.
Qed.

Lemma gone_rest_complete (w1 name w2 h w3 a w4 rest : string) :
  nonempty w1 = true -> all_chars is_space w1 = true ->
  nonempty name = true -> all_chars not_space name = true ->
  nonempty w2 = true -> all_chars is_space w2 = true ->
  nonempty h = true -> all_chars not_space h = true ->
  nonempty w3 = true -> all_chars is_space w3 = true ->
  nonempty a = true -> all_chars not_rbracket a = true ->
  all_chars is_space w4 = true ->
  gone_rest (w1 ++ name ++ w2 ++ h ++ w3 ++ "[" ++ a ++ ":" ++ w4 ++ "gone]" ++ rest)
  = Some name.
Proof.
  intros N1 A1 Nn An N2 A2 Nh Ah N3 A3 Na Aa A4.
  assert (E6 : span not_rbracket (a ++ ":" ++ w4 ++ "gone]" ++ rest)
               = (a ++ ":" ++ w4 ++ "gone", "]" ++ rest)).
  { replace (a ++ ":" ++ w4 ++ "gone]" ++ rest)
      with ((a ++ ":" ++ w4 ++ "gone") ++ "]" ++ rest) by (rewrite !sapp_assoc; reflexivity).
    apply span_exact; [|reflexivity].
    rewrite !all_chars_app, Aa, (all_chars_impl _ _ _ space_not_rbracket A4). reflexivity. }
  assert (Eg : gone_body (a ++ ":" ++ w4 ++ "gone") = true).
  { apply gone_body_iff. exists a, w4. repeat split; assumption. }
  unfold gone_rest.
  rewrite (span_exact is_space w1); [| exact A1 | exact (stops_app _ _ _ _ not_space_space Nn An)].
  rewrite (span_exact not_space name); [| exact An | exact (stops_app _ _ _ _ space_not_space N2 A2)].
  rewrite (span_exact is_space w2); [| exact A2 | exact (stops_app _ _ _ _ not_space_space Nh Ah)].
  rewrite (span_exact not_space h); [| exact Ah | exact (stops_app _ _ _ _ space_not_space N3 A3)].
  rewrite (span_exact is_space w3); [| exact A3 | reflexivity].
  rewrite N1, Nn, N2, Nh, N3. cbn [andb].
  change ("[" ++ a ++ ":" ++ w4 ++ "gone]" ++ rest)
    with (String "["%char (a ++ ":" ++ w4 ++ "gone]" ++ rest)).
  cbv iota. unfold char_eqb. rewrite Ascii.eqb_refl. rewrite E6. cbn iota beta.
  rewrite Eg. reflexivity.
Qed.

Lemma gone_match_nostar (line : string) :
  stops (fun c => char_eqb c star) line = true -> gone_match line = gone_rest line.
Proof.
  unfold gone_match, stops. destruct line as [|c r]; [reflexivity|]. intro H.
  destruct (char_eqb c star); [discriminate|reflexivity].
Qed.

Lemma gone_match_shape (line name : string) :
  gone_match line = Some name <-> gone_shape line name.
Proof.
  split.
  - intro H.
    assert (Hcase : (exists r, line = "*" ++ r /\ gone_rest r = Some name)
                    \/ gone_rest line = Some name).
    { unfold gone_match in H. destruct line as [|c r]; [right; exact H|].
      destruct (char_eqb c star) eqn:Ec.
      - left. apply char_eqb_true in Ec. subst c. exists r. split; [reflexivity|exact H].
      - right. exact H. }
    destruct Hcase as [[r [-> Hr]]|Hr].
    + destruct (gone_rest_sound _ _ Hr)
        as [w1 [w2 [h [w3 [a [w4 [rest [-> Hc]]]]]]]].
      exists "*", w1, w2, h, w3, a, w4, rest. split; [right; reflexivity|].
      split; [reflexivity|exact Hc].
    + destruct (gone_rest_sound _ _ Hr)
        as [w1 [w2 [h [w3 [a [w4 [rest [-> Hc]]]]]]]].
      exists "", w1, w2, h, w3, a, w4, rest. split; [left; reflexivity|].
      split; [reflexivity|exact Hc].
  - intros [m [w1 [w2 [h [w3 [a [w4 [rest
             [Hm [-> [N1 [A1 [Nn [An [N2 [A2 [Nh [Ah [N3 [A3 [Na [Aa A4]]]]]]]]]]]]]]]]]]]]]].
    destruct Hm as [-> | ->].
    + rewrite gone_match_nostar.
      * exact (gone_rest_complete w1 name w2 h w3 a w4 rest
                 N1 A1 Nn An N2 A2 Nh Ah N3 A3 Na Aa A4).
      * exact (stops_app _ _ _ _ space_not_star N1 A1).
    + exact (gone_rest_complete w1 name w2 h w3 a w4 rest
               N1 A1 Nn An N2 A2 Nh Ah N3 A3 Na Aa A4).
Qed.

(** C7 (code bug): [git branch -vv] prints a branch without upstream as
    name, hash and commit subject.  When the subject of "local-only" starts
    with "[tmp: gone]", its line is taken for a gone annotation and the
    branch, which has no upstream, is returned next to the genuinely gone
    "old-feature". *)
Lemma gone_matches_commit_subject :
  detectGoneBranches
    ("  local-only   abc1234 [tmp: gone] scratch notes" ++ Demo.nl ++
     "  old-feature  def5678 [origin/old-feature: gone] old commit" ++ Demo.nl ++
     "* main         0123abc [origin/main] release")
    (Some "main") Demo.default_protected
  = ["local-only"; "old-feature"].
Proof. vm_compute. reflexivity. Qed.

(** What [detectGoneBranches] checks: a name is returned exactly when some
    line of the listing has the shape of [gone_shape] for it (optional '*',
    blanks, the name, blanks, a token, blanks, '[', a non-empty text without
    ']', ':', optional blanks, "gone]", anything) and the name is neither
    the current branch nor protected.  Whether the bracket is the upstream
    annotation or the start of the commit subject is not checked. *)
Lemma detectGoneBranches_shape (stdout : string) (current : option string)
    (prot : list string) (n : string) :
  In n (detectGoneBranches stdout current prot) <->
  exists line, In line (split_lines stdout) /\ gone_shape line n /\
               differs_from current n = true /\ isProtectedBranch n prot = false.
Proof.
  unfold detectGoneBranches. rewrite in_flat_map. split.
  - intros [line [Hin Hn]]. apply filter_In in Hin as [Hin _].
    destruct (gone_match line) as [nm|] eqn:Hg; [|destruct Hn].
    destruct (differs_from current nm && negb (isProtectedBranch nm prot)) eqn:Hc;
      [|destruct Hn].
    destruct Hn as [<-|[]]. apply andb_prop in Hc as [Hd Hp].
    apply negb_true_iff in Hp.
    exists line. split; [exact Hin|]. split; [apply gone_match_shape; exact Hg|].
    split; assumption.
  - intros [line [Hin [Hs [Hd Hp]]]]. apply gone_match_shape in Hs.
    exists line. split.
    + apply filter_In. split; [exact Hin|].
      destruct line; [discriminate Hs|reflexivity].
    + rewrite Hs, Hd, Hp. left. reflexivity.
Qed.

(* ================================================================= *)
(** ** Further properties of the code                                *)
(* ================================================================= *)

(** *** [escapeHtml] *)

Lemma replace_char_app (c : ascii) (r x y : string) :
  replace_char c r (x ++ y) = replace_char c r x ++ replace_char c r y.
Proof.
  induction x as [|d x IH]; simpl; [reflexivity|].
  destruct (char_eqb d c); rewrite IH; [rewrite sapp_assoc|]; reflexivity.
Qed.

Lemma escapeHtml_app (x y : string) : escapeHtml (x ++ y) = escapeHtml x ++ escapeHtml y.
Proof. unfold escapeHtml. rewrite !replace_char_app. reflexivity. Qed.

Lemma escapeHtml_char (c : ascii) : escapeHtml (String c EmptyString) = html_entity c.
Proof.
  unfold html_entity.
  destruct (char_eqb c "&"%char) eqn:E1; [apply char_eqb_true in E1; subst; reflexivity|].
  destruct (char_eqb c "<"%char) eqn:E2; [apply char_eqb_true in E2; subst; reflexivity|].
  destruct (char_eqb c ">"%char) eqn:E3; [apply char_eqb_true in E3; subst; reflexivity|].
  destruct (char_eqb c dquote) eqn:E4; [apply char_eqb_true in E4; subst; reflexivity|].
  destruct (char_eqb c squote) eqn:E5; [apply char_eqb_true in E5; subst; reflexivity|].
  unfold escapeHtml. cbn [replace_char]. rewrite E1. cbn [replace_char]. rewrite E2.
  cbn [replace_char]. rewrite E3. cbn [replace_char]. rewrite E4. cbn [replace_char].
  rewrite E5. reflexivity.
Qed.

(** X1: the five chained [replace] calls act as one substitution per
    character of the input: ['&'] is escaped first, so the entities the
    later passes insert are never escaped again, and no character of an
    entity is touched by a later pass. *)
Theorem escapeHtml_single_pass (s : string) : escapeHtml s = html_escape_table s.
Proof.
  induction s as [|c t IH]; [reflexivity|].
  change (String c t) with (String c EmptyString ++ t).
  rewrite escapeHtml_app, escapeHtml_char, IH. reflexivity.
Qed.

Lemma html_entity_safe (c : ascii) :
  all_chars (fun d => negb (html_special d)) (html_entity c) = true.
Proof.
  unfold html_entity.
  destruct (char_eqb c "&"%char) eqn:E1; [reflexivity|].
  destruct (char_eqb c "<"%char) eqn:E2; [reflexivity|].
  destruct (char_eqb c ">"%char) eqn:E3; [reflexivity|].
  destruct (char_eqb c dquote) eqn:E4; [reflexivity|].
  destruct (char_eqb c squote) eqn:E5; [reflexivity|].
  cbn [all_chars]. unfold html_special. rewrite E2, E3, E4, E5. reflexivity.
Qed.

(** X2: the output of [escapeHtml] contains none of the characters
    [<], [>], the double quote and the single quote, whatever the input. *)
Theorem escapeHtml_no_special (s : string) :
  all_chars (fun d => negb (html_special d)) (escapeHtml s) = true.
Proof.
  rewrite escapeHtml_single_pass.
  induction s as [|c t IH]; [reflexivity|]. cbn [html_escape_table].
  rewrite all_chars_app, html_entity_safe, IH. reflexivity.
Qed.

Lemma html_unescape_table (s : string) (n : nat) :
  String.length (html_escape_table s) <= n -> html_unescape_aux n (html_escape_table s) = s.
Proof.
  revert n. induction s as [|c t IH]; intros n Hn.
  - destruct n; reflexivity.
  - cbn [html_escape_table] in *. unfold html_entity in *.
    destruct (char_eqb c "&"%char) eqn:E1;
      [apply char_eqb_true in E1; subst c;
       destruct n as [|f]; [simpl in Hn; lia|];
       simpl; rewrite IH; [reflexivity|simpl in Hn; lia]|].
    destruct (char_eqb c "<"%char) eqn:E2;
      [apply char_eqb_true in E2; subst c;
       destruct n as [|f]; [simpl in Hn; lia|];
       simpl; rewrite IH; [reflexivity|simpl in Hn; lia]|].
    destruct (char_eqb c ">"%char) eqn:E3;
      [apply char_eqb_true in E3; subst c;
       destruct n as [|f]; [simpl in Hn; lia|];
       simpl; rewrite IH; [reflexivity|simpl in Hn; lia]|].
    destruct (char_eqb c dquote) eqn:E4;
      [apply char_eqb_true in E4; subst c;
       destruct n as [|f]; [simpl in Hn; lia|];
       simpl; rewrite IH; [reflexivity|simpl in Hn; lia]|].
    destruct (char_eqb c squote) eqn:E5;
      [apply char_eqb_true in E5; subst c;
       destruct n as [|f]; [simpl in Hn; lia|];
       simpl; rewrite IH; [reflexivity|simpl in Hn; lia]|].
    destruct n as [|f]; [simpl in Hn; lia|].
    cbn [String.append html_unescape_aux]. rewrite E1, IH; [reflexivity|simpl in Hn; lia].
Qed.

(** X3: escaping loses nothing: decoding the five entities in the output
    of [escapeHtml] gives back the input. *)
Theorem escapeHtml_round_trip (s : string) : html_unescape (escapeHtml s) = s.
Proof.
  unfold html_unescape. rewrite escapeHtml_single_pass.
  apply html_unescape_table. lia.
Qed.

(** *** [parseTrackShort] *)

Lemma digit_not_space (c : ascii) : is_digit c = true -> is_space c = false.
Proof.
  unfold is_digit, is_space. intro H. apply andb_prop in H as [H1 H2].
  apply Nat.leb_le in H1, H2.
  destruct (Nat.leb 9 (nat_of_ascii c)) eqn:A; destruct (Nat.leb (nat_of_ascii c) 13) eqn:B;
    destruct (Nat.eqb (nat_of_ascii c) 32) eqn:C; simpl; try reflexivity;
    try (apply Nat.leb_le in B; lia); apply Nat.eqb_eq in C; lia.
Qed.

Lemma digit_not_char (c d : ascii) : is_digit d = false -> is_digit c = true ->
  char_eqb c d = false.
Proof.
  intros Hd Hc. destruct (char_eqb c d) eqn:E; [|reflexivity].
  apply char_eqb_true in E. subst. congruence.
Qed.

Lemma trim_id (s : string) :
  stops is_space s = true -> stops is_space (rev_str s EmptyString) = true -> trim s = s.
Proof.
  intros H1 H2. unfold trim.
  pose proof (trim_start_app EmptyString s eq_refl H1) as T1.
  pose proof (trim_start_app EmptyString _ eq_refl H2) as T2.
  cbn [String.append] in T1, T2. rewrite T1, T2.
  apply rev_str_involutive.
Qed.

Lemma all_chars_trim (p : ascii -> bool) (s : string) :
  all_chars p s = true -> all_chars p (trim s) = true.
Proof.
  intro H. unfold trim.
  destruct (trim_start_spec s) as [ws1 [E1 _]].
  assert (H1 : all_chars p (trim_start s) = true).
  { rewrite E1, all_chars_app in H. apply andb_prop in H. apply H. }
  rewrite <- all_chars_rev in H1.
  destruct (trim_start_spec (rev_str (trim_start s) EmptyString)) as [ws2 [E2 _]].
  rewrite E2, all_chars_app in H1. apply andb_prop in H1 as [_ H1].
  rewrite all_chars_rev. exact H1.
Qed.

Lemma match_signed_none (sign : ascii) (t : string) :
  all_chars (fun c => negb (char_eqb c sign)) t = true -> match_signed sign t = None.
Proof.
  induction t as [|c t IH]; intro H; [reflexivity|].
  simpl in H. apply andb_prop in H as [Hc Ht]. apply negb_true_iff in Hc.
  simpl. rewrite Hc. exact (IH Ht).
Qed.

Lemma match_signed_skip (sign : ascii) (x y : string) :
  all_chars (fun c => negb (char_eqb c sign)) x = true ->
  match_signed sign (x ++ y) = match_signed sign y.
Proof.
  induction x as [|c x IH]; intro H; [reflexivity|].
  simpl in H. apply andb_prop in H as [Hc Hx]. apply negb_true_iff in Hc.
  simpl. rewrite Hc. exact (IH Hx).
Qed.

(** X4: ahead and behind counts written as ["+a -b"] are read back: with
    [a] and [b] non-empty runs of decimal digits (of value below 2^53, where
    [Number] is exact), [parseTrackShort] returns their values. *)
Theorem parseTrackShort_round_trip (a b : string) :
  nonempty a = true -> all_chars is_digit a = true ->
  nonempty b = true -> all_chars is_digit b = true ->
  (Number_digits a < 2 ^ 53)%Z -> (Number_digits b < 2 ^ 53)%Z ->
  parseTrackShort (Some ("+" ++ a ++ " -" ++ b))
  = mkAB (Some (Number_digits a)) (Some (Number_digits b)).
Proof.
  intros Na Da Nb Db _ _.
  assert (Hnd : forall x, all_chars is_digit x = true ->
                          all_chars (fun c => negb (char_eqb c "-"%char)) x = true).
  { intros x Hx. apply (all_chars_impl is_digit); [|exact Hx].
    intros c Hc. rewrite (digit_not_char c "-"%char eq_refl Hc). reflexivity. }
  assert (Htrim : trim ("+" ++ a ++ " -" ++ b) = "+" ++ a ++ " -" ++ b).
  { apply trim_id; [reflexivity|].
    change ("+" ++ a ++ " -" ++ b) with ("+" ++ (a ++ (" -" ++ b))).
    rewrite !rev_str_app, !sapp_assoc.
    apply (stops_app is_space is_digit); [exact digit_not_space| |].
    - rewrite <- nonempty_rev in Nb. exact Nb.
    - rewrite all_chars_rev. exact Db. }
  unfold parseTrackShort.
  change (nonempty ("+" ++ a ++ " -" ++ b)) with true. cbv beta iota.
  rewrite Htrim.
  change (negb (nonempty ("+" ++ a ++ " -" ++ b))) with false.
  change (String.eqb ("+" ++ a ++ " -" ++ b) "<>") with false. cbv beta iota.
  cbn [orb].
  assert (Hp : match_signed "+"%char ("+" ++ a ++ " -" ++ b) = Some a).
  { change ("+" ++ a ++ " -" ++ b) with (String "+"%char (a ++ " -" ++ b)).
    cbn [match_signed]. change (char_eqb "+"%char "+"%char) with true. cbv iota.
    rewrite (span_exact is_digit a (" -" ++ b) Da eq_refl), Na. reflexivity. }
  assert (Hm : match_signed "-"%char ("+" ++ a ++ " -" ++ b) = Some b).
  { change ("+" ++ a ++ " -" ++ b) with (String "+"%char (a ++ " -" ++ b)).
    cbn [match_signed]. change (char_eqb "+"%char "-"%char) with false. cbv iota.
    rewrite (match_signed_skip _ a _ (Hnd a Da)).
    change (" -" ++ b) with (String " "%char (String "-"%char b)).
    cbn [match_signed]. change (char_eqb " "%char "-"%char) with false.
    change (char_eqb "-"%char "-"%char) with true. cbv iota.
    rewrite <- (sapp_nil b) at 1.
    rewrite (span_exact is_digit b EmptyString Db eq_refl), Nb. reflexivity. }
  rewrite Hp, Hm. reflexivity.
Qed.

(** X5: a track string without any ['+'] or ['-'] gives neither count;
    this covers the markers ['='], ['<'], ['>'] and ["<>"]. *)
Theorem parseTrackShort_no_counts (tr : string) :
  all_chars (fun c => negb (char_eqb c "+"%char) && negb (char_eqb c "-"%char)) tr = true ->
  parseTrackShort (Some tr) = mkAB None None.
Proof.
  intro H. unfold parseTrackShort.
  destruct (negb (nonempty tr)); [reflexivity|]. cbv zeta.
  destruct (negb (nonempty (trim tr)) || String.eqb (trim tr) "<>"); [reflexivity|].
  apply all_chars_trim in H.
  rewrite !match_signed_none; [reflexivity| |].
  - apply (all_chars_impl _ _ _ (fun c Hc => proj2 (proj1 (andb_true_iff _ _) Hc)) H).
  - apply (all_chars_impl _ _ _ (fun c Hc => proj1 (proj1 (andb_true_iff _ _) Hc)) H).
Qed.

Lemma parseTrackShort_round_trip_witness :
  parseTrackShort (Some ("+" ++ "12" ++ " -" ++ "3")) = mkAB (Some 12%Z) (Some 3%Z).
Proof.
  apply (parseTrackShort_round_trip "12" "3"); try reflexivity; vm_compute; reflexivity.
Defined.

Lemma parseTrackShort_no_counts_witness :
  parseTrackShort (Some "<>") = mkAB None None /\ parseTrackShort (Some ">") = mkAB None None.
Proof.
  split; apply parseTrackShort_no_counts; reflexivity.
Defined.

(** *** [simpleBranchNameValidator] and the listing parsers *)

Lemma validator_accepts (n : string) :
  simpleBranchNameValidator (Some n) = None ->
  nonempty n = true /\ all_chars not_space n = true /\
  all_chars (fun c => negb (is_invalid_name_char c)) n = true.
Proof.
  unfold simpleBranchNameValidator.
  destruct (nonempty n); [|discriminate]. cbn [negb].
  destruct (any_char is_space n) eqn:E1; [discriminate|].
  destruct (any_char is_invalid_name_char n) eqn:E2; [discriminate|].
  intros _. unfold any_char in E1, E2. apply negb_false_iff in E1, E2.
  repeat split; assumption.
Qed.

Lemma not_space_neq (c d : ascii) : is_space d = true -> not_space c = true ->
  negb (char_eqb c d) = true.
Proof.
  intros Hd Hc. destruct (char_eqb c d) eqn:E; [|reflexivity].
  apply char_eqb_true in E. subst. unfold not_space in Hc. rewrite Hd in Hc. discriminate.
Qed.

Lemma valid_not_rbracket (c : ascii) :
  negb (is_invalid_name_char c) = true -> not_rbracket c = true.
Proof.
  intro H. unfold not_rbracket. destruct (char_eqb c "]"%char) eqn:E; [|reflexivity].
  apply char_eqb_true in E. subst. discriminate H.
Qed.

Lemma split_char_none (c : ascii) (s : string) :
  all_chars (fun d => negb (char_eqb d c)) s = true -> split_char c s = [s].
Proof.
  induction s as [|d s IH]; intro H; [reflexivity|].
  simpl in H. apply andb_prop in H as [Hd Hs]. apply negb_true_iff in Hd.
  simpl. rewrite Hd, (IH Hs). reflexivity.
Qed.

Lemma split_char_sep (c : ascii) (x y : string) :
  all_chars (fun d => negb (char_eqb d c)) x = true ->
  split_char c (x ++ String c y) = x :: split_char c y.
Proof.
  induction x as [|d x IH]; intro H.
  - simpl. unfold char_eqb. rewrite Ascii.eqb_refl. reflexivity.
  - simpl in H. apply andb_prop in H as [Hd Hx]. apply negb_true_iff in Hd.
    simpl. rewrite Hd, (IH Hx). reflexivity.
Qed.

Lemma endsWith_char_none (c : ascii) (s : string) :
  all_chars (fun d => negb (char_eqb d c)) s = true -> endsWith_char s c = false.
Proof.
  induction s as [|d s IH]; intro H; [reflexivity|].
  simpl in H. apply andb_prop in H as [Hd Hs]. apply negb_true_iff in Hd.
  destruct s as [|e s]; [exact Hd|]. exact (IH Hs).
Qed.

Lemma trim_around (w1 x w2 : string) :
  all_chars is_space w1 = true -> nonempty x = true -> all_chars not_space x = true ->
  all_chars is_space w2 = true -> trim (w1 ++ x ++ w2) = x.
Proof.
  intros A1 N A A2. unfold trim.
  rewrite (trim_start_app w1 (x ++ w2) A1 (stops_app _ _ _ _ not_space_space N A)).
  rewrite rev_str_app.
  rewrite (trim_start_app _ _ (eq_trans (all_chars_rev _ _) A2)).
  - apply rev_str_involutive.
  - rewrite <- (sapp_nil (rev_str x EmptyString)).
    apply (stops_app is_space not_space); [exact not_space_space| |].
    + rewrite nonempty_rev. exact N.
    + rewrite all_chars_rev. exact A.
Qed.

(** X6: a branch name accepted by the validator is read back by
    [detectGoneBranches] from any line of the [git branch -vv] listing
    that carries a gone annotation, with any padding: optional '*', blanks,
    the name, blanks, the hash, blanks, then ["[" upstream ":"], optional
    blanks and ["gone]"], where the upstream is any non-empty text without
    [']'], followed by anything; unless the name is the current branch or
    protected.  The name has no blank, so the pattern captures all of it. *)
Theorem validated_name_gone_line (stdout m w1 n w2 h w3 a w4 rest : string)
    (current : option string) (prot : list string) :
  simpleBranchNameValidator (Some n) = None ->
  m = EmptyString \/ m = "*" ->
  nonempty w1 = true -> all_chars is_space w1 = true ->
  nonempty w2 = true -> all_chars is_space w2 = true ->
  nonempty h = true -> all_chars not_space h = true ->
  nonempty w3 = true -> all_chars is_space w3 = true ->
  nonempty a = true -> all_chars not_rbracket a = true ->
  all_chars is_space w4 = true ->
  In (m ++ w1 ++ n ++ w2 ++ h ++ w3 ++ "[" ++ a ++ ":" ++ w4 ++ "gone]" ++ rest)
     (split_lines stdout) ->
  differs_from current n = true -> isProtectedBranch n prot = false ->
  In n (detectGoneBranches stdout current prot).
Proof.
  intros Hv Hm N1 A1 N2 A2 Nh Ah N3 A3 Na Aa A4 Hin Hd Hp.
  destruct (validator_accepts n Hv) as [Nn [An _]].
  apply detectGoneBranches_shape.
  exists (m ++ w1 ++ n ++ w2 ++ h ++ w3 ++ "[" ++ a ++ ":" ++ w4 ++ "gone]" ++ rest).
  split; [exact Hin|]. split; [|split; assumption].
  exists m, w1, w2, h, w3, a, w4, rest.
  split; [exact Hm|]. split; [reflexivity|].
  repeat split; assumption.
Qed.

Lemma validated_name_gone_line_witness :
  In "old-feature"
     (detectGoneBranches
        ("  old-feature  def5678 [origin/old-feature: gone] old commit" ++ Demo.nl ++
         "* main         0123abc [origin/main] release")
        (Some "main") Demo.default_protected).
Proof.
  apply (validated_name_gone_line _ EmptyString "  " "old-feature" "  " "def5678" " "
           "origin/old-feature" " " " old commit");
    first [left; reflexivity | vm_compute; reflexivity | vm_compute; left; reflexivity].
Defined.

(** X7: a branch name accepted by the validator is read back unchanged by
    the other two parsers: [getCurrentBranch] on the output ["<name>\n"] of
    [git rev-parse --abbrev-ref HEAD] (unless the name is ["HEAD"]), and
    [detectDeadBranches] on its line ["  <name>\n"] of
    [git branch --merged] (when it is neither current nor protected). *)
Theorem validated_name_listings (n : string) (current : option string) (prot : list string) :
  simpleBranchNameValidator (Some n) = None ->
  (String.eqb n "HEAD" = false -> getCurrentBranch (Some (n ++ Demo.nl)) = Some n) /\
  (differs_from current n = true -> isProtectedBranch n prot = false ->
   detectDeadBranches ("  " ++ n ++ Demo.nl) current prot = [n]).
Proof.
  intro Hv. destruct (validator_accepts n Hv) as [Nn [An Vn]].
  split.
  - intro Hh. unfold getCurrentBranch.
    pose proof (trim_around EmptyString n Demo.nl eq_refl Nn An eq_refl) as T.
    cbn [String.append] in T. rewrite T, Hh. reflexivity.
  - intros Hd Hp. unfold detectDeadBranches, split_lines.
    assert (Hx : all_chars (fun d => negb (char_eqb d (ascii_of_nat 10))) ("  " ++ n) = true).
    { rewrite all_chars_app.
      rewrite (all_chars_impl not_space _ n (fun c Hc => not_space_neq c (ascii_of_nat 10) eq_refl Hc) An).
      reflexivity. }
    change ("  " ++ n ++ Demo.nl) with (("  " ++ n) ++ String (ascii_of_nat 10) EmptyString)
      at 1.
    rewrite (split_char_sep _ _ _ Hx). cbn [split_char rev app map].
    assert (Hcr : drop_trailing_cr ("  " ++ n) = "  " ++ n).
    { unfold drop_trailing_cr. rewrite endsWith_char_none; [reflexivity|].
      rewrite all_chars_app.
      rewrite (all_chars_impl not_space _ n (fun c Hc => not_space_neq c (ascii_of_nat 13) eq_refl Hc) An).
      reflexivity. }
    rewrite Hcr.
    pose proof (trim_around "  " n EmptyString eq_refl Nn An eq_refl) as T.
    rewrite sapp_nil in T. rewrite T.
    change (trim EmptyString) with EmptyString.
    cbn [map filter]. rewrite Nn. cbn [map].
    assert (Hm : strip_current_marker n = n).
    { destruct n as [|c r]; [discriminate|]. unfold strip_current_marker.
      simpl in Vn. apply andb_prop in Vn as [Vc _].
      destruct (char_eqb c star) eqn:E; [|reflexivity].
      apply char_eqb_true in E. subst. discriminate Vc. }
    assert (Hb : strip_no_branch n = n).
    { unfold strip_no_branch. destruct (String.eqb n "(no branch)") eqn:E; [|reflexivity].
      apply String.eqb_eq in E. subst. discriminate An. }
    rewrite Hm, Hb. cbn [filter]. rewrite Nn, Hd, Hp. reflexivity.
Qed.

Lemma validated_name_listings_witness :
  getCurrentBranch (Some ("feature/x" ++ Demo.nl)) = Some "feature/x" /\
  detectDeadBranches ("  " ++ "feature/x" ++ Demo.nl) (Some "main") Demo.default_protected
  = ["feature/x"].
Proof.
  destruct (validated_name_listings "feature/x" (Some "main") Demo.default_protected
              ltac:(vm_compute; reflexivity)) as [H1 H2].
  split; [apply H1; reflexivity | apply H2; reflexivity].
Defined.

(** *** [checkoutBranch] *)

Lemma split_char_nonempty (c : ascii) (s : string) : split_char c s <> [].
Proof.
  destruct s as [|x r]; simpl; [discriminate|].
  destruct (char_eqb x c); [discriminate|]. destruct (split_char c r); discriminate.
Qed.

Lemma join_char_cons (c : ascii) (p : string) (ps : list string) :
  join_char c (p :: ps) = match ps with [] => p | _ => p ++ String c (join_char c ps) end.
Proof. destruct ps; reflexivity. Qed.

Lemma join_split (c : ascii) (s : string) : join_char c (split_char c s) = s.
Proof.
  induction s as [|x r IH]; [reflexivity|]. cbn [split_char].
  pose proof (split_char_nonempty c r) as Hne.
  destruct (char_eqb x c) eqn:E.
  - apply char_eqb_true in E. subst x.
    destruct (split_char c r) as [|p ps] eqn:Es; [contradiction|].
    rewrite <- IH, join_char_cons. reflexivity.
  - destruct (split_char c r) as [|p ps] eqn:Es; [contradiction|].
    rewrite <- IH, !join_char_cons. destruct ps; reflexivity.
Qed.

Lemma local_name_of_remote (r rest : string) :
  all_chars (fun c => negb (char_eqb c slash)) r = true ->
  join_char slash (tl (split_char slash (r ++ "/" ++ rest))) = rest.
Proof.
  intro Hr. change (r ++ "/" ++ rest) with (r ++ String slash rest).
  rewrite (split_char_sep _ _ _ Hr). apply join_split.
Qed.

(** X8: checking out ["r/rest"], where the first segment [r] has no
    ['/'], with no local branch of that name and an existing
    [refs/remotes/r/rest], runs [git checkout -b rest --track r/rest]
    after exactly two probes: the local name drops only the first segment
    (further ['/'] are kept).  When that command succeeds the checkout is
    done; when it fails (for instance because a local [rest] already
    exists) the function falls back to [git checkout r/rest], whose result
    is the result. *)
Theorem checkout_remote_creates_tracking (run : list string -> bool) (r rest : string) :
  all_chars (fun c => negb (char_eqb c slash)) r = true ->
  run ["show-ref"; "--verify"; "refs/heads/" ++ r ++ "/" ++ rest] = false ->
  run ["show-ref"; "--verify"; "refs/remotes/" ++ r ++ "/" ++ rest] = true ->
  checkoutBranch run (r ++ "/" ++ rest)
  = if run ["checkout"; "-b"; rest; "--track"; r ++ "/" ++ rest]
    then ([["show-ref"; "--verify"; "refs/heads/" ++ r ++ "/" ++ rest];
           ["show-ref"; "--verify"; "refs/remotes/" ++ r ++ "/" ++ rest];
           ["checkout"; "-b"; rest; "--track"; r ++ "/" ++ rest]], true)
    else ([["show-ref"; "--verify"; "refs/heads/" ++ r ++ "/" ++ rest];
           ["show-ref"; "--verify"; "refs/remotes/" ++ r ++ "/" ++ rest];
           ["checkout"; "-b"; rest; "--track"; r ++ "/" ++ rest];
           ["checkout"; r ++ "/" ++ rest]],
          run ["checkout"; r ++ "/" ++ rest]).
Proof.
  intros Hr H1 H2. unfold checkoutBranch. cbv zeta.
  rewrite (local_name_of_remote r rest Hr), H1. cbv iota.
  rewrite H2. destruct (run ["checkout"; "-b"; rest; "--track"; r ++ "/" ++ rest]);
    reflexivity.
Qed.

(** A local [feature/x] already exists, so [-b] is refused and the remote
    ref is checked out directly. *)
Lemma checkout_remote_creates_tracking_witness :
  checkoutBranch (fun a => if list_eq_dec string_dec a
                                 ["show-ref"; "--verify"; "refs/heads/origin/feature/x"]
                               then false
                               else if list_eq_dec string_dec a
                                 ["checkout"; "-b"; "feature/x"; "--track"; "origin/feature/x"]
                               then false else true)
                 ("origin" ++ "/" ++ "feature/x")
  = ([["show-ref"; "--verify"; "refs/heads/origin/feature/x"];
      ["show-ref"; "--verify"; "refs/remotes/origin/feature/x"];
      ["checkout"; "-b"; "feature/x"; "--track"; "origin/feature/x"];
      ["checkout"; "origin/feature/x"]], true).
Proof.
  rewrite (checkout_remote_creates_tracking _ "origin" "feature/x");
    [vm_compute; reflexivity | vm_compute; reflexivity | vm_compute; reflexivity
    | vm_compute; reflexivity].
Defined.

(** X9: when the local branch exists but [git checkout <name>] fails (for
    instance on local changes) and there is no [refs/remotes/<name>],
    the error is not reported at once: the remote ref is probed and the
    same checkout is run a second time, whose failure is the result. *)
Theorem checkout_failure_retried (run : list string -> bool) (name : string) :
  run ["show-ref"; "--verify"; "refs/heads/" ++ name] = true ->
  run ["checkout"; name] = false ->
  run ["show-ref"; "--verify"; "refs/remotes/" ++ name] = false ->
  checkoutBranch run name
  = ([["show-ref"; "--verify"; "refs/heads/" ++ name]; ["checkout"; name];
      ["show-ref"; "--verify"; "refs/remotes/" ++ name]; ["checkout"; name]], false).
Proof.
  intros H1 H2 H3. unfold checkoutBranch. cbv zeta.
  rewrite H1, H2. cbv iota. rewrite H3. reflexivity.
Qed.

Lemma checkout_failure_retried_witness :
  checkoutBranch (fun a => if list_eq_dec string_dec a ["show-ref"; "--verify"; "refs/heads/dev"]
                          then true else false)
                 "dev"
  = ([["show-ref"; "--verify"; "refs/heads/dev"]; ["checkout"; "dev"];
      ["show-ref"; "--verify"; "refs/remotes/dev"]; ["checkout"; "dev"]], false).
Proof. apply checkout_failure_retried; vm_compute; reflexivity. Defined.

(** *** Single-branch handlers *)

(** X10: the [deleteLocal] handler runs git only for an unprotected
    branch that was confirmed or needs no confirmation, and then runs
    exactly [git branch -D|-d name] following [forceDeleteLocal]; it asks
    a question only when [confirmBeforeDelete] is set, and only for that
    branch. *)
Theorem onDeleteLocal_guarded (run : list string -> bool) (confirm : Question -> bool)
    (cfg : ExtensionConfig) (name : string) :
  (forall args, In (SGit args) (onDeleteLocal run confirm cfg name) <->
     isProtectedBranch name cfg.(protectedPatterns) = false /\
     (cfg.(confirmBeforeDelete) = false \/ confirm (QDeleteLocal name) = true) /\
     args = ["branch"; if cfg.(forceDeleteLocal) then "-D" else "-d"; name]) /\
  (forall q, In (SAsk q) (onDeleteLocal run confirm cfg name) <->
     isProtectedBranch name cfg.(protectedPatterns) = false /\
     cfg.(confirmBeforeDelete) = true /\ q = QDeleteLocal name).
Proof.
  unfold onDeleteLocal, gate, git_then_refresh.
  destruct (isProtectedBranch name (protectedPatterns cfg)), (confirmBeforeDelete cfg),
    (confirm (QDeleteLocal name)), (forceDeleteLocal cfg);
    try destruct (run _); simpl; firstorder congruence.
Qed.

(** X11: the [rename] handler always asks for the new name first, before
    any protection check; git runs only when a non-empty name different
    from the old one was entered and the old branch is not protected,
    and then runs [git branch -m old new]; the protection warning is
    shown only after such a name was entered. *)
Theorem onRename_flow (run : list string -> bool) (cfg : ExtensionConfig)
    (oldName : string) (newName : option string) :
  hd_error (onRename run cfg oldName newName) = Some SAskName /\
  (forall args, In (SGit args) (onRename run cfg oldName newName) <->
     exists nn, newName = Some nn /\ nn <> EmptyString /\ nn <> oldName /\
       isProtectedBranch oldName cfg.(protectedPatterns) = false /\
       args = ["branch"; "-m"; oldName; nn]) /\
  (In (SNotice WarnProtectedRename) (onRename run cfg oldName newName) <->
     exists nn, newName = Some nn /\ nn <> EmptyString /\ nn <> oldName /\
       isProtectedBranch oldName cfg.(protectedPatterns) = true).
Proof.
  split; [reflexivity|]. unfold onRename, git_then_refresh.
  destruct newName as [nn|].
  2:{ simpl. split; [intro args|]; split;
      [intros [H|[]]; discriminate | intros (nn & H & _); discriminate
      |intros [H|[]]; discriminate | intros (nn & H & _); discriminate]. }
  assert (Hne : nonempty nn = false <-> nn = EmptyString)
    by (destruct nn; simpl; split; congruence).
  destruct (nonempty nn) eqn:En; destruct (String.eqb_spec nn oldName) as [Eq|Neq];
    destruct (isProtectedBranch oldName (protectedPatterns cfg)) eqn:Ep;
    try destruct (run _); simpl.
  all: split; [intro args; split|split].
  all: match goal with
       | |- (exists _, _) -> _ =>
           let Hs := fresh in let H := fresh in
           intros (? & Hs & H); injection Hs as <-; decompose [and] H; clear H;
           subst; simpl;
           solve [ intuition congruence
                 | exfalso; match goal with
                            | Hn : ?x <> EmptyString |- _ => apply Hn, Hne; reflexivity
                            end ]
       | |- _ =>
           let Hin := fresh in
           intro Hin; repeat destruct Hin as [Hin|Hin];
           try discriminate; try contradiction; try (injection Hin as <-);
           exists nn; repeat split; try assumption; try reflexivity;
           intro E; rewrite E in En; discriminate
       end.
Qed.

(** X12: the [mergeIntoCurrent] handler never merges the current branch
    into itself nor a protected source, and it always asks before
    merging, whatever [confirmBeforeDelete] says: git runs exactly
    [git merge source], and only after the merge question was asked and
    accepted. *)
Theorem onMergeIntoCurrent_guarded (run : list string -> bool) (confirm : Question -> bool)
    (cfg : ExtensionConfig) (current : option string) (source : string) :
  (forall args, In (SGit args) (onMergeIntoCurrent run confirm cfg current source) <->
     (current <> Some source \/ source = EmptyString) /\
     isProtectedBranch source cfg.(protectedPatterns) = false /\
     confirm (QMerge source) = true /\ args = ["merge"; source]) /\
  (forall args, In (SGit args) (onMergeIntoCurrent run confirm cfg current source) ->
     In (SAsk (QMerge source)) (onMergeIntoCurrent run confirm cfg current source)).
Proof.
  unfold onMergeIntoCurrent, git_then_refresh.
  assert (Hself : (match current with
                   | Some c => nonempty c && String.eqb source c
                   | None => false end) = true <->
                  current = Some source /\ source <> EmptyString).
  { destruct current as [c|]; [|split; [discriminate|intros [H _]; discriminate]].
    rewrite andb_true_iff, String.eqb_eq.
    destruct c; simpl; split; intuition congruence. }
  destruct (match current with
            | Some c => nonempty c && String.eqb source c
            | None => false end) eqn:Es.
  - destruct (proj1 Hself eq_refl) as [Hc Hs]. simpl.
    split; [intro args; split|]; [intros [H|[]]; discriminate| |intros args [H|[]]; discriminate].
    intros ([H|H] & _); congruence.
  - assert (Hnot : current <> Some source \/ source = EmptyString).
    { destruct source as [|x r]; [right; reflexivity|left].
      intro Hc. assert (false = true) by (apply Hself; split; [exact Hc|discriminate]).
      discriminate. }
    destruct (isProtectedBranch source (protectedPatterns cfg)), (confirm (QMerge source));
      try destruct (run _); simpl; firstorder congruence.
Qed.

(** X13: the [deleteRemote] handler checks protection on the branch name
    alone (not on the remote) and always asks before deleting, whatever
    [confirmBeforeDelete] says: git runs exactly
    [git push remote --delete name], and only after the question for
    that remote branch was asked and accepted. *)
Theorem onDeleteRemote_guarded (run : list string -> bool) (confirm : Question -> bool)
    (cfg : ExtensionConfig) (remote name : string) :
  (forall args, In (SGit args) (onDeleteRemote run confirm cfg remote name) <->
     isProtectedBranch name cfg.(protectedPatterns) = false /\
     confirm (QDeleteRemote remote name) = true /\
     args = ["push"; remote; "--delete"; name]) /\
  (forall args, In (SGit args) (onDeleteRemote run confirm cfg remote name) ->
     In (SAsk (QDeleteRemote remote name)) (onDeleteRemote run confirm cfg remote name)).
Proof.
  unfold onDeleteRemote, git_then_refresh.
  destruct (isProtectedBranch name (protectedPatterns cfg)), (confirm (QDeleteRemote remote name));
    try destruct (run _); simpl; firstorder congruence.
Qed.

(** *** [executeRemoteCleanup] *)

Section RemoteCleanupFacts.

Context {W : Type} `{GitRepo W}.

Local Open Scope list_scope.

Lemma delete_selected_remotes_spec prot fulls (w w' : W) ev failed :
  delete_selected_remotes prot fulls w = (w', ev, failed) ->
  ev = map (fun f => EvDeleteRemote (fst (split_remote f)) (snd (split_remote f)))
           (filter (fun f => negb (isProtectedBranch (snd (split_remote f)) prot)) fulls) /\
  (forall f, In f fulls -> isProtectedBranch (snd (split_remote f)) prot = true -> In f failed) /\
  incl failed fulls.
Proof.
  revert w w' ev failed.
  induction fulls as [|x fulls IH]; intros w w' ev failed E; simpl in E.
  - inversion E; subst. split; [reflexivity|split]; [intros f []|intros f []].
  - destruct (split_remote x) as [r n] eqn:Ex.
    destruct (isProtectedBranch n prot) eqn:Ep.
    + destruct (delete_selected_remotes prot fulls w) as [[w2 ev2] f2] eqn:E2.
      inversion E; subst. destruct (IH _ _ _ _ E2) as (Hev & Hp & Hi).
      split; [|split].
      * simpl. rewrite Ex. simpl. rewrite Ep. exact Hev.
      * intros f [<-|Hf] Hpf; [left; reflexivity|right; auto].
      * intros f [<-|Hf]; [left; reflexivity|right; auto].
    + destruct (git_push_delete w r n) as [w1|];
        [destruct (delete_selected_remotes prot fulls w1) as [[w2 ev2] f2] eqn:E2
        |destruct (delete_selected_remotes prot fulls w) as [[w2 ev2] f2] eqn:E2];
        inversion E; subst; destruct (IH _ _ _ _ E2) as (Hev & Hp & Hi);
        (split; [simpl; rewrite Ex; simpl; rewrite Ep; simpl; rewrite Ex; f_equal; exact Hev|split]).
      * intros f [<-|Hf] Hpf; [rewrite Ex in Hpf; simpl in Hpf; congruence|auto].
      * intros f Hf; right; auto.
      * intros f [<-|Hf] Hpf; [left; reflexivity|right; auto].
      * intros f [<-|Hf]; [left; reflexivity|right; auto].
Qed.

Lemma gate_spec (confirm : Question -> bool) cfg q p asked :
  gate confirm cfg q = (p, asked) ->
  (forall s, In s asked -> s = SAsk q) /\
  (p = true <-> cfg.(confirmBeforeDelete) = false \/ confirm q = true).
Proof.
  unfold gate. destruct (confirmBeforeDelete cfg), (confirm q); intro E; inversion E; subst;
    (split; [intros s Hs; simpl in Hs; intuition congruence|intuition congruence]).
Qed.

(** X14: in the [executeRemoteCleanup] handler, a push delete is issued
    exactly for the entries of the list whose branch part (after the
    first ['/']) is not protected, and only when the list is non-empty
    and the deletion was confirmed or needs no confirmation; every
    protected entry then ends in [failed], [failed] holds only entries
    of the list, and the failure warning is shown exactly when [failed]
    is non-empty. *)
Theorem executeRemoteCleanup_outcome (confirm : Question -> bool) (cfg : ExtensionConfig)
    (branches : list string) (w : W) :
  let steps := snd (fst (executeRemoteCleanup confirm cfg branches w)) in
  let failed := snd (executeRemoteCleanup confirm cfg branches w) in
  let proceed := branches <> [] /\
        (cfg.(confirmBeforeDelete) = false \/
         confirm (QDeleteRemotes (length branches)) = true) in
  (forall e, In (SEv e) steps <->
     proceed /\
     exists f, In f branches /\
       isProtectedBranch (snd (split_remote f)) cfg.(protectedPatterns) = false /\
       e = EvDeleteRemote (fst (split_remote f)) (snd (split_remote f))) /\
  incl failed branches /\
  (proceed -> forall f, In f branches ->
     isProtectedBranch (snd (split_remote f)) cfg.(protectedPatterns) = true -> In f failed) /\
  (In (SNotice (WarnFailedRemotes failed)) steps <-> failed <> []).
Proof.
  cbv zeta. unfold executeRemoteCleanup.
  destruct branches as [|b bs].
  { simpl. split; [intro e; split; [intros []|intros [[Hne _] _]; congruence]|].
    split; [intros f []|]. split; [intros [Hne _]; congruence|].
    split; [intros []|intro Hne; congruence]. }
  destruct (gate confirm cfg (QDeleteRemotes (length (b :: bs)))) as [p asked] eqn:Eg.
  destruct (gate_spec _ _ _ _ _ Eg) as [Hask Hpi].
  destruct p; simpl negb; cbv iota.
  - destruct (delete_selected_remotes (protectedPatterns cfg) (b :: bs) w)
      as [[w' ev] failed] eqn:E.
    destruct (delete_selected_remotes_spec _ _ _ _ _ _ E) as (Hev & Hp & Hi).
    simpl snd; simpl fst.
    assert (Hpr : b :: bs <> [] /\ (confirmBeforeDelete cfg = false \/
                    confirm (QDeleteRemotes (length (b :: bs))) = true))
      by (split; [discriminate|apply Hpi; reflexivity]).
    split; [intro e; rewrite !in_app_iff, in_map_iff; split|].
    + intros [Ha|[(e' & He & Hin)|[Hw|Hr]]].
      * apply Hask in Ha; discriminate.
      * injection He as ->. split; [exact Hpr|].
        rewrite Hev in Hin. apply in_map_iff in Hin as (f & <- & Hf).
        apply filter_In in Hf as [Hf Hn]. apply negb_true_iff in Hn.
        exists f. split; [exact Hf|split; [exact Hn|reflexivity]].
      * destruct failed; simpl in Hw; [contradiction|destruct Hw as [Hw|[]]; discriminate].
      * destruct Hr as [Hr|[]]; discriminate.
    + intros [_ (f & Hf & Hn & ->)]. right; left.
      exists (EvDeleteRemote (fst (split_remote f)) (snd (split_remote f))).
      split; [reflexivity|]. rewrite Hev. apply in_map_iff.
      exists f. split; [reflexivity|]. apply filter_In.
      split; [exact Hf|rewrite Hn; reflexivity].
    + split; [exact Hi|]. split; [intros _; exact Hp|].
      rewrite !in_app_iff, in_map_iff. split.
      * intros [Ha|[(e' & He & _)|[Hw|Hr]]].
        -- apply Hask in Ha; discriminate.
        -- discriminate.
        -- destruct failed; [contradiction|discriminate].
        -- destruct Hr as [Hr|[]]; discriminate.
      * intro Hf. right; right; left. destruct failed; [congruence|left; reflexivity].
  - simpl. split; [intro e; split|].
    + intro Ha; apply Hask in Ha; discriminate.
    + intros [[_ Hd] _]; apply Hpi in Hd; discriminate.
    + split; [intros f []|]. split; [intros [_ Hd]; apply Hpi in Hd; discriminate|].
      split; [intro Ha; apply Hask in Ha; discriminate|intro Hf; congruence].
Qed.

End RemoteCleanupFacts.

(** *** Commit dates and stale branches *)

Section JsMapFacts.

Local Open Scope list_scope.

Context {V : Type}.

Lemma js_map_set_keys (m : list (string * V)) k v x :
  In x (map fst (js_map_set m k v)) <-> x = k \/ In x (map fst m).
Proof.
  induction m as [|[k' v'] m IH]; simpl; [intuition congruence|].
  destruct (String.eqb_spec k k') as [<-|Hne]; simpl; [intuition congruence|].
  rewrite IH. intuition congruence.
Qed.

Lemma js_map_set_nodup (m : list (string * V)) k v :
  NoDup (map fst m) -> NoDup (map fst (js_map_set m k v)).
Proof.
  induction m as [|[k' v'] m IH]; simpl; intro Hd.
  - constructor; [intros []|constructor].
  - inversion Hd as [|? ? Hn Hd']; subst.
    destruct (String.eqb_spec k k') as [<-|Hne]; simpl; constructor; auto.
    rewrite js_map_set_keys. intros [E|E]; [congruence|contradiction].
Qed.

Lemma js_map_set_in (m : list (string * V)) k v x u :
  NoDup (map fst m) ->
  (In (x, u) (js_map_set m k v) <-> (x = k /\ u = v) \/ (x <> k /\ In (x, u) m)).
Proof.
  induction m as [|[k' v'] m IH]; simpl; intro Hd.
  - split; [intros [E|[]]; injection E as <- <-; left; auto|].
    intros [[-> ->]|[_ []]]; left; reflexivity.
  - inversion Hd as [|? ? Hn Hd']; subst.
    destruct (String.eqb_spec k k') as [<-|Hne]; simpl.
    + split.
      * intros [E|Hin]; [injection E as <- <-; left; auto|].
        right; split; [|right; exact Hin].
        intros Hx. apply Hn. apply in_map_iff. exists (x, u). split; [exact Hx|exact Hin].
      * intros [[-> ->]|[Hx [E|Hin]]]; [left; reflexivity| |right; exact Hin].
        injection E as -> ->. congruence.
    + rewrite (IH Hd'). split.
      * intros [E|[[-> ->]|[Hx Hin]]]; [injection E as <- <-| |]; auto.
      * intros [[-> ->]|[Hx [E|Hin]]]; auto.
Qed.

Lemma nodup_keys_filter (p : string * V -> bool) (m : list (string * V)) :
  NoDup (map fst m) -> NoDup (map fst (filter p m)).
Proof.
  induction m as [|[k v] m IH]; simpl; intro Hd; [constructor|].
  inversion Hd as [|? ? Hn Hd']; subst.
  destruct (p (k, v)); simpl; auto.
  constructor; auto. intro Hin. apply Hn.
  apply in_map_iff in Hin as ([k' v'] & E & Hin). simpl in E; subst k'.
  apply filter_In in Hin as [Hin _]. apply in_map_iff. exists (k, v'). auto.
Qed.

Lemma map_get_snoc (S : list (string * V)) k v x :
  map_get (S ++ [(k, v)]) x = if String.eqb x k then Some v else map_get S x.
Proof.
  induction S as [|[k' v'] S IH]; simpl; [destruct (String.eqb x k); reflexivity|].
  rewrite IH. destruct (String.eqb x k); reflexivity.
Qed.

End JsMapFacts.

Section StaleFacts.

Local Open Scope list_scope.

Variable ageInDays_of : string -> option Z.

Lemma record_date_inv m S line :
  dates_inv m S -> dates_inv (record_date ageInDays_of m line) (S ++ date_line ageInDays_of line).
Proof.
  unfold record_date, date_line. intros [Hd Hm].
  destruct (split_char "009"%char line) as [|name [|dateStr rest]];
    try (rewrite app_nil_r; split; assumption).
  destruct (nonempty name && nonempty dateStr); [|rewrite app_nil_r; split; assumption].
  split; [apply js_map_set_nodup; exact Hd|].
  intros x u. rewrite (js_map_set_in _ _ _ _ _ Hd), map_get_snoc.
  destruct (String.eqb_spec x name) as [->|Hne].
  - split; [intros [[_ ->]|[Hn _]]; [reflexivity|congruence]|intro E; injection E as <-; left; auto].
  - rewrite <- Hm.
    split; [intros [[Hx _]|[_ Hin]]; [congruence|exact Hin]|intro Hin; right; auto].
Qed.

Lemma fold_record_date_inv lines m S :
  dates_inv m S ->
  dates_inv (fold_left (record_date ageInDays_of) lines m)
            (S ++ flat_map (date_line ageInDays_of) lines).
Proof.
  revert m S. induction lines as [|l lines IH]; intros m S Hi; simpl.
  - rewrite app_nil_r. exact Hi.
  - rewrite app_assoc. apply IH, record_date_inv, Hi.
Qed.

Lemma getBranchLastCommitDates_inv stdout :
  dates_inv (getBranchLastCommitDates ageInDays_of stdout) (date_sets ageInDays_of stdout).
Proof.
  unfold getBranchLastCommitDates, date_sets.
  change (flat_map (date_line ageInDays_of) (filter nonempty (split_lines stdout)))
    with ([] ++ flat_map (date_line ageInDays_of) (filter nonempty (split_lines stdout))).
  apply fold_record_date_inv. split; [constructor|intros x u; simpl; split; [intros []|discriminate]].
Qed.

End StaleFacts.

(** X15: [detectStaleBranches] lists each branch at most once, and lists
    a name exactly when the date recorded for it by the last line of the
    listing that names it (the later line wins in the map) is at least
    [staleDays] days old (an invalid date never is), and the name is
    neither the current branch nor protected. *)
Theorem detectStaleBranches_spec (ageInDays_of : string -> option Z) (stdout : string)
    (current : option string) (protectedList : list string) (staleDays : Z) :
  NoDup (detectStaleBranches ageInDays_of stdout current protectedList staleDays) /\
  (forall n, In n (detectStaleBranches ageInDays_of stdout current protectedList staleDays) <->
     exists d a, map_get (date_sets ageInDays_of stdout) n = Some (d, a) /\
       age_at_least a staleDays = true /\ differs_from current n = true /\
       isProtectedBranch n protectedList = false).
Proof.
  destruct (getBranchLastCommitDates_inv ageInDays_of stdout) as [Hd Hm].
  unfold detectStaleBranches. split; [apply nodup_keys_filter, Hd|].
  intro n. rewrite in_map_iff. split.
  - intros ([k [d a]] & E & Hin). simpl in E; subst k.
    apply filter_In in Hin as [Hin Hp]. simpl in Hp.
    rewrite !andb_true_iff, negb_true_iff in Hp. destruct Hp as [[Ha Hc] Hpr].
    exists d, a. split; [apply Hm, Hin|auto].
  - intros (d & a & Hg & Ha & Hc & Hpr). exists (n, (d, a)). split; [reflexivity|].
    apply filter_In. split; [apply Hm, Hg|]. simpl. rewrite Ha, Hc, Hpr. reflexivity.
Qed.

Section RemoteDatesFacts.

Variable ageInDays_of : string -> option Z.

Lemma record_remote_date_ok m line :
  remote_keys_ok m -> remote_keys_ok (record_remote_date ageInDays_of m line).
Proof.
  unfold record_remote_date. intros [Hd Hm].
  destruct (split_char "009"%char line) as [|name [|dateStr rest]]; try (split; assumption).
  destruct (nonempty name && nonempty dateStr && negb (endsWith name "/HEAD")) eqn:Ec;
    [|split; assumption].
  rewrite !andb_true_iff, negb_true_iff in Ec. destruct Ec as [[Hn _] Hh].
  split; [apply js_map_set_nodup, Hd|].
  intros k u Hin. apply (js_map_set_in _ _ _ _ _ Hd) in Hin.
  destruct Hin as [[-> _]|[_ Hin]]; [split; assumption|exact (Hm _ _ Hin)].
Qed.

End RemoteDatesFacts.

(** X16: the map built by [getRemoteBranchLastCommitDates] has each name
    once, and never a key that is empty or ends in [/HEAD]: the
    [origin/HEAD] pointer is never given a date. *)
Theorem getRemoteBranchLastCommitDates_keys (ageInDays_of : string -> option Z) (stdout : string) :
  NoDup (map fst (getRemoteBranchLastCommitDates ageInDays_of stdout)) /\
  forall k u, In (k, u) (getRemoteBranchLastCommitDates ageInDays_of stdout) ->
    nonempty k = true /\ endsWith k "/HEAD" = false.
Proof.
  unfold getRemoteBranchLastCommitDates.
  assert (Hgen : forall lines m, remote_keys_ok m ->
                 remote_keys_ok (fold_left (record_remote_date ageInDays_of) lines m)).
  { induction lines as [|l lines IH]; intros m Hm; simpl; [exact Hm|].
    apply IH, record_remote_date_ok, Hm. }
  apply Hgen. split; [constructor|intros k u []].
Qed.

(** *** [pickRepository] *)

(** X17: when the quick pick resolves to one of the items it was given,
    [pickRepository] only returns the path of a workspace folder that
    [isGitRepository] accepts; and the quick pick is shown exactly when
    there are at least two workspace folders and at least one of them is
    a git repository (with one folder, it is used without asking). *)
Theorem pickRepository_spec (folders : list Folder) (isGit : string -> bool)
    (choose : list PickItem -> option PickItem)
    (Hchoose : forall items p, choose items = Some p -> In p items) :
  (forall root shown, pickRepository folders isGit choose = (Some root, shown) ->
     exists f, In f folders /\ isGit f.(f_path) = true /\ root = f.(f_path)) /\
  (snd (pickRepository folders isGit choose) = true <->
     2 <= length folders /\ exists f, In f folders /\ isGit f.(f_path) = true).
Proof.
  destruct folders as [|f1 [|f2 fs]].
  - simpl. split; [discriminate|]. split; [discriminate|intros [Hl _]; simpl in Hl; lia].
  - simpl. destruct (isGit (f_path f1)) eqn:Eg; simpl.
    + split; [intros root shown E; injection E as <- _; exists f1; auto|].
      split; [discriminate|intros [Hl _]; simpl in Hl; lia].
    + split; [discriminate|]. split; [discriminate|intros [Hl _]; simpl in Hl; lia].
  - cbv beta iota zeta delta [pickRepository].
    assert (Hok : forall f, In f (filter (fun f => isGit (f_path f)) (f1 :: f2 :: fs)) <->
                            In f (f1 :: f2 :: fs) /\ isGit (f_path f) = true)
      by (intro f; apply filter_In).
    destruct (filter (fun f => isGit (f_path f)) (f1 :: f2 :: fs)) as [|o os] eqn:Ef.
    + split; [discriminate|]. split; [discriminate|].
      intros [_ (f & Hf & Hg)]. exfalso. apply (proj2 (Hok f)); auto.
    + assert (Hshown : 2 <= length (f1 :: f2 :: fs) /\
                       exists f, In f (f1 :: f2 :: fs) /\ isGit (f_path f) = true).
      { split; [simpl; lia|]. exists o. apply Hok. left; reflexivity. }
      destruct (choose (map (fun f => mkPick (f_name f) (f_path f) (f_path f)) (o :: os)))
        as [p|] eqn:Ec.
      * split; [|split; [intros _; exact Hshown|reflexivity]].
        intros root shown E. injection E as <- _.
        apply Hchoose, in_map_iff in Ec as (f & <- & Hf).
        apply Hok in Hf as [Hf Hg]. exists f. auto.
      * split; [discriminate|]. split; [intros _; exact Hshown|reflexivity].
Qed.

Lemma pickRepository_spec_witness :
  exists f, In f [mkFolder "app" "/w/app"; mkFolder "docs" "/w/docs"] /\
    String.eqb f.(f_path) "/w/app" = true /\ "/w/app" = f.(f_path).
Proof.
  assert (Hc : forall items p, @hd_error PickItem items = Some p -> In p items).
  { intros items p E. destruct items as [|i is]; simpl in E; [discriminate|].
    injection E as <-. left; reflexivity. }
  apply (proj1 (pickRepository_spec [mkFolder "app" "/w/app"; mkFolder "docs" "/w/docs"]
                  (fun p => String.eqb p "/w/app") _ Hc) "/w/app" true).
  vm_compute. reflexivity.
Defined.

(** *** [listRemoteBranches] *)

Lemma split_char_no_sep (c : ascii) (s : string) :
  includes_char s c = false -> split_char c s = [s].
Proof.
  induction s as [|x r IH]; cbn [includes_char split_char]; intro Hs; [reflexivity|].
  apply orb_false_iff in Hs as [H1 H2]. rewrite H1, (IH H2). reflexivity.
Qed.

Lemma split_char_has_sep (c : ascii) (s : string) :
  includes_char s c = true -> exists a b rest, split_char c s = a :: b :: rest.
Proof.
  induction s as [|x r IH]; cbn [includes_char split_char]; intro Hs; [discriminate|].
  destruct (char_eqb x c).
  - pose proof (split_char_nonempty c r) as Hne.
    destruct (split_char c r) as [|p ps]; [contradiction|].
    exists EmptyString, p, ps. reflexivity.
  - destruct (IH Hs) as (a & b & rest & ->). exists (String x a), b, rest. reflexivity.
Qed.

(** X18: [listRemoteBranches] throws (here [None]) exactly when some line
    of the listing has no tab and does not end in [/HEAD]; otherwise
    every row it returns is a remote row whose ref does not end in
    [/HEAD], and a row for ["remote/name"] (remote without ['/']) is
    protected exactly when [name], the part after the remote, is. *)
Theorem listRemoteBranches_rows (lines protectedList : list string) :
  (listRemoteBranches lines protectedList = None <->
     exists l, In l lines /\ includes_char l "009"%char = false /\
               endsWith l "/HEAD" = false) /\
  (forall rows, listRemoteBranches lines protectedList = Some rows ->
     forall r, In r rows ->
       endsWith r.(fullRef) "/HEAD" = false /\ r.(kind) = Remote /\
       forall rm nm, all_chars (fun c => negb (char_eqb c slash)) rm = true ->
         r.(short) = rm ++ "/" ++ nm ->
         r.(protected) = Some (isProtectedBranch nm protectedList)).
Proof.
  induction lines as [|line rest [IHn IHs]].
  - simpl. split; [split; [discriminate|intros (l & [] & _)]|].
    intros rows E r Hr. injection E as <-. destruct Hr.
  - cbn [listRemoteBranches].
    assert (Hskip : includes_char line "009"%char = true \/ endsWith line "/HEAD" = true ->
              (exists l, In l (line :: rest) /\ includes_char l "009"%char = false /\
                         endsWith l "/HEAD" = false) <->
              (exists l, In l rest /\ includes_char l "009"%char = false /\
                         endsWith l "/HEAD" = false)).
    { intro Hl. split.
      - intros (l & [<-|Hin] & H1 & H2); [destruct Hl as [Hl|Hl]; congruence|eauto].
      - intros (l & Hin & H); exists l; split; [right|]; assumption. }
    destruct (includes_char line "009"%char) eqn:Ht.
    + destruct (split_char_has_sep _ _ Ht) as (fr & sh & more & Es). rewrite Es.
      destruct (endsWith fr "/HEAD") eqn:Eh.
      * rewrite (Hskip (or_introl eq_refl)). split; assumption.
      * destruct (listRemoteBranches rest protectedList) as [rows0|] eqn:Er.
        -- split.
           ++ rewrite (Hskip (or_introl eq_refl)), <- IHn. split; discriminate.
           ++ intros rows E r Hr. injection E as <-. destruct Hr as [<-|Hr].
              ** cbn [fullRef kind short protected]. split; [exact Eh|split; [reflexivity|]].
                 intros rm nm Hrm ->. rewrite (local_name_of_remote rm nm Hrm). reflexivity.
              ** exact (IHs rows0 eq_refl r Hr).
        -- split.
           ++ rewrite (Hskip (or_introl eq_refl)), <- IHn. split; reflexivity.
           ++ intros rows E. discriminate.
    + rewrite (split_char_no_sep _ _ Ht).
      destruct (endsWith line "/HEAD") eqn:Eh.
      * rewrite (Hskip (or_intror eq_refl)). split; assumption.
      * split.
        -- split; [intros _; exists line; split; [left; reflexivity|split; assumption]|reflexivity].
        -- intros rows E. discriminate.
Qed.
